(** * payloops/backend-worker: a shallow embedding of the worker's functions

    The development follows the layout of the repository:

    - [lib/crypto.ts]   the credential vault ([getKey], [encrypt], [decrypt]);
    - [lib/schema.ts]   the relational schema (one record per table row);
    - [functions/db.ts] the remotely invokable functions ([getProcessorConfig],
      [updateOrderStatus], [getRetryDelay], [deliverWebhook]).

    What the repository imports from elsewhere is kept abstract: Node's
    [crypto] primitives and [JSON] are the fields of a class, the system
    clock, the random generator and the remote HTTP endpoint are oracles of a
    [World].

    A string is given by its UTF-8 form, as a byte string: this covers the
    well-formed strings, the only ones the store, the environment and
    [JSON.stringify] yield.  The plaintext of the vault is whatever string the
    caller passes, or whatever the decoder makes of the decrypted bytes: it is
    given by its UTF-16 code units, and Node's UTF-8 encoder and decoder are
    modelled after the Encoding Standard they implement.

    The relational store is idealised: tables hold typed rows, a row with a
    [uuid] key is held under the text the store prints for the key, and the
    width of a column never makes the store reject a statement.  The store
    does reject the insert of [createWebhookEvent] when it breaks the primary
    key or a foreign key of the schema, and it refuses text that is no uuid
    where it expects one: [invoke_updateOrderStatus] is [updateOrderStatus]
    behind this check.  Where a statement speaks of an id the store does not
    hold, the id is taken as the text of a uuid. *)

From Stdlib Require Import ZArith QArith Qround Qminmax Qpower String Ascii List Lia.
From Stdlib.Strings Require Import Byte.
From stdpp Require Import base option list strings gmap pretty.

Open Scope string_scope.

(* ====================================================================== *)
(** * Results of fallible code *)
(* ====================================================================== *)

(** The exceptions the modelled code can raise.  The repository declares no
    error class of its own: everything thrown comes from Node. *)
Inductive error : Type :=
  | TypeError             (* [undefined] for a string, or a text that is no hexadecimal text *)
  | InvalidIV             (* createCipheriv / createDecipheriv reject the IV *)
  | InvalidAuthTag        (* setAuthTag rejects the tag *)
  | AuthenticationFailed  (* decipher.final(): unable to authenticate data *)
  | SyntaxError.          (* JSON.parse *)

Inductive result (A : Type) : Type :=
  | Ok (a : A)
  | Err (e : error).
Arguments Ok {A} a.
Arguments Err {A} e.

#[global] Instance result_ret : MRet result := λ A a, Ok a.
#[global] Instance result_bind : MBind result := λ A B k r,
  match r with
  | Ok a => k a
  | Err e => Err e
  end.

(* ====================================================================== *)
(** * JavaScript strings and UTF-8 *)
(* ====================================================================== *)

(** A JavaScript string by its UTF-16 code units, numbers below 0x10000.
    Nothing pairs the surrogates of such a string: a high one may stand
    alone.  A number that is no code unit is treated as a surrogate that
    stands alone. *)
Definition JSString : Type := list N.

(** The UTF-8 encoder and decoder of the Encoding Standard, over the numbers
    of the code units and of the bytes. *)
Module Utf8.

Definition is_high (u : N) : bool := ((0xD800 <=? u) && (u <=? 0xDBFF))%N.
Definition is_low (u : N) : bool := ((0xDC00 <=? u) && (u <=? 0xDFFF))%N.

(** Every surrogate is half of a pair. *)
Fixpoint well_formed (s : JSString) : bool :=
  match s with
  | [] => true
  | u :: rest =>
      if is_high u then
        match rest with
        | v :: rest' => is_low v && well_formed rest'
        | [] => false
        end
      else negb (is_low u) && (u <? 0x10000)%N && well_formed rest
  end.

(** [s.toWellFormed()]: every surrogate that is no half of a pair is replaced
    by U+FFFD. *)
Fixpoint toWellFormed (s : JSString) : JSString :=
  match s with
  | [] => []
  | u :: rest =>
      if is_high u then
        match rest with
        | v :: rest' =>
            if is_low v then u :: v :: toWellFormed rest'
            else 0xFFFD%N :: toWellFormed rest
        | [] => [0xFFFD%N]
        end
      else if is_low u then 0xFFFD%N :: toWellFormed rest
      else if (u <? 0x10000)%N then u :: toWellFormed rest
      else 0xFFFD%N :: toWellFormed rest
  end.

(** The bytes of U+FFFD, written for a surrogate that is no half of a pair. *)
Definition replacement : list N := [0xEF; 0xBF; 0xBD]%N.

Definition encode_code_point (cp : N) : list N :=
  (if cp <? 0x80 then [cp]
   else if cp <? 0x800 then [0xC0 + cp / 64; 0x80 + cp mod 64]
   else if cp <? 0x10000 then [0xE0 + cp / 4096; 0x80 + (cp / 64) mod 64; 0x80 + cp mod 64]
   else [0xF0 + cp / 262144; 0x80 + (cp / 4096) mod 64; 0x80 + (cp / 64) mod 64;
         0x80 + cp mod 64])%N.

Fixpoint encode_units (s : JSString) : list N :=
  match s with
  | [] => []
  | u :: rest =>
      if is_high u then
        match rest with
        | v :: rest' =>
            if is_low v
            then encode_code_point (0x10000 + (u - 0xD800) * 1024 + (v - 0xDC00))%N
                   ++ encode_units rest'
            else replacement ++ encode_units rest
        | [] => replacement
        end
      else if is_low u then replacement ++ encode_units rest
      else if (u <? 0x10000)%N then encode_code_point u ++ encode_units rest
      else replacement ++ encode_units rest
  end.

Definition within (lo hi b : N) : bool := ((lo <=? b) && (b <=? hi))%N.

Definition units_of_code_point (cp : N) : list N :=
  (if cp <? 0x10000 then [cp]
   else [0xD800 + (cp - 0x10000) / 1024; 0xDC00 + (cp - 0x10000) mod 1024])%N.

(** What follows a lead byte; [continue] decodes the rest.  A byte out of the
    range expected ends the sequence, which yields one U+FFFD, and is read
    again as the start of the next sequence. *)
Definition decode_2 (continue : list N → list N) (b0 : N) (r0 : list N) : list N :=
  match r0 with
  | b1 :: r1 =>
      if within 0x80 0xBF b1
      then ((b0 - 0xC0) * 64 + (b1 - 0x80))%N :: continue r1
      else 0xFFFD%N :: continue r0
  | [] => [0xFFFD%N]
  end.

Definition decode_3 (continue : list N → list N) (b0 : N) (r0 : list N) : list N :=
  match r0 with
  | b1 :: r1 =>
      if within (if (b0 =? 0xE0)%N then 0xA0 else 0x80)%N
                (if (b0 =? 0xED)%N then 0x9F else 0xBF)%N b1
      then match r1 with
           | b2 :: r2 =>
               if within 0x80 0xBF b2
               then (((b0 - 0xE0) * 64 + (b1 - 0x80)) * 64 + (b2 - 0x80))%N :: continue r2
               else 0xFFFD%N :: continue r1
           | [] => [0xFFFD%N]
           end
      else 0xFFFD%N :: continue r0
  | [] => [0xFFFD%N]
  end.

Definition decode_4 (continue : list N → list N) (b0 : N) (r0 : list N) : list N :=
  match r0 with
  | b1 :: r1 =>
      if within (if (b0 =? 0xF0)%N then 0x90 else 0x80)%N
                (if (b0 =? 0xF4)%N then 0x8F else 0xBF)%N b1
      then match r1 with
           | b2 :: r2 =>
               if within 0x80 0xBF b2
               then match r2 with
                    | b3 :: r3 =>
                        if within 0x80 0xBF b3
                        then units_of_code_point
                               ((((b0 - 0xF0) * 64 + (b1 - 0x80)) * 64 + (b2 - 0x80)) * 64
                                + (b3 - 0x80))%N
                               ++ continue r3
                        else 0xFFFD%N :: continue r2
                    | [] => [0xFFFD%N]
                    end
               else 0xFFFD%N :: continue r1
           | [] => [0xFFFD%N]
           end
      else 0xFFFD%N :: continue r0
  | [] => [0xFFFD%N]
  end.

Fixpoint decode_bytes (bs : list N) : JSString :=
  match bs with
  | [] => []
  | b0 :: r0 =>
      if (b0 <? 0x80)%N then b0 :: decode_bytes r0
      else if within 0xC2 0xDF b0 then decode_2 decode_bytes b0 r0
      else if within 0xE0 0xEF b0 then decode_3 decode_bytes b0 r0
      else if within 0xF0 0xF4 b0 then decode_4 decode_bytes b0 r0
      else 0xFFFD%N :: decode_bytes r0
  end.

End Utf8.

(* ====================================================================== *)
(** * Buffers, hexadecimal text and [String.prototype.split] *)
(* ====================================================================== *)

Module Buffer.

(** One lowercase hexadecimal digit, for a nibble. *)
Definition hex_digit (n : N) : ascii :=
  if (n <? 10)%N then ascii_of_N (48 + n) else ascii_of_N (87 + n).

(** The value of a hexadecimal digit of either case. *)
Definition hex_value (c : ascii) : option N :=
  let n := N_of_ascii c in
  if ((48 <=? n) && (n <=? 57))%N then Some (n - 48)%N
  else if ((97 <=? n) && (n <=? 102))%N then Some (n - 87)%N
  else if ((65 <=? n) && (n <=? 70))%N then Some (n - 55)%N
  else None.

Definition byte_of_N (n : N) : byte := byte_of_ascii (ascii_of_N n).
Definition N_of_byte (b : byte) : N := N_of_ascii (ascii_of_byte b).

(** [buf.toString('hex')] and [hash.digest('hex')]. *)
Fixpoint toString_hex (buf : list byte) : string :=
  match buf with
  | [] => EmptyString
  | b :: rest =>
      String (hex_digit (N_of_byte b / 16))
        (String (hex_digit (N_of_byte b mod 16)) (toString_hex rest))
  end.

(** [Buffer.from(s, 'hex')]: pairs of digits are decoded up to the first
    pair that is not hexadecimal; a trailing single character is dropped. *)
Fixpoint from_hex (s : string) : list byte :=
  match s with
  | String a (String b rest) =>
      match hex_value a, hex_value b with
      | Some h, Some l => byte_of_N (16 * h + l) :: from_hex rest
      | _, _ => []
      end
  | _ => []
  end.

(** A destructured array element may be [undefined]; [Buffer.from] then
    throws a [TypeError]. *)
Definition from (s : option string) : result (list byte) :=
  match s with
  | Some h => Ok (from_hex h)
  | None => Err TypeError
  end.

(** The bytes of a string that is given by its UTF-8 form. *)
Definition from_utf8 (s : string) : list byte := list_byte_of_string s.

(** The UTF-8 encoding of a string that is given by its code units, and
    [buf.toString('utf8')], which is also what a decipher yields for the
    output encoding ['utf8']. *)
Definition from_string (s : JSString) : list byte := byte_of_N <$> Utf8.encode_units s.
Definition toString_utf8 (buf : list byte) : JSString := Utf8.decode_bytes (N_of_byte <$> buf).

(** The code units of a string that is given by its UTF-8 form; their number
    is the [length] of the string. *)
Definition code_units (s : string) : JSString := toString_utf8 (from_utf8 s).

(** [decipher.update(data, 'hex', ..)]: [undefined] is no string and a text
    of odd length is no hexadecimal text; either is refused with a
    [TypeError] (ERR_INVALID_ARG_TYPE, ERR_INVALID_ARG_VALUE). *)
Definition update_hex (s : option string) : result (list byte) :=
  match s with
  | Some h => if Nat.even (length (code_units h)) then Ok (from_hex h) else Err TypeError
  | None => Err TypeError
  end.

End Buffer.

(** [s.split(sep)] for a one-character separator: never the empty array. *)
Fixpoint split (sep : ascii) (s : string) : list string :=
  match s with
  | EmptyString => [EmptyString]
  | String c rest =>
      if Ascii.eqb c sep then EmptyString :: split sep rest
      else match split sep rest with
           | hd :: tl => String c hd :: tl
           | [] => [String c EmptyString]
           end
  end.

(** The characters of a string, for statements about its alphabet. *)
Fixpoint chars (s : string) : list ascii :=
  match s with
  | EmptyString => []
  | String c rest => c :: chars rest
  end.

(* ====================================================================== *)
(** * What Node provides: [crypto] and [JSON] *)
(* ====================================================================== *)

(** The primitives of Node's [crypto] module the repository calls.  They are
    not code of the repository and stay abstract. *)
Class NodeCrypto : Type := {
  (** [createHash('sha256').update(data).digest()] *)
  sha256 : list byte → list byte;
  (** [createHmac('sha256', key).update(data).digest()] *)
  hmac_sha256 : list byte → list byte → list byte;
  (** whether [createCipheriv] / [createDecipheriv] accept the IV *)
  gcm_iv_ok : list byte → bool;
  (** whether [setAuthTag] accepts the tag *)
  gcm_tag_ok : list byte → bool;
  (** aes-256-gcm under key and IV: the ciphertext and the tag *)
  gcm_seal : list byte → list byte → list byte → list byte * list byte;
  (** aes-256-gcm under key, IV and tag: the plaintext, when the tag verifies *)
  gcm_open : list byte → list byte → list byte → list byte → option (list byte)
}.

(** What the vault relies on: the cipher is a correct AEAD for the 16-byte
    IVs [encrypt] draws. *)
Class AEAD (C : NodeCrypto) : Prop := {
  iv16_ok : ∀ iv, length iv = 16 → gcm_iv_ok iv = true;
  seal_tag_ok : ∀ key iv pt, gcm_tag_ok (gcm_seal key iv pt).2 = true;
  open_seal : ∀ key iv pt,
    gcm_iv_ok iv = true →
    gcm_open key iv (gcm_seal key iv pt).2 (gcm_seal key iv pt).1 = Some pt
}.

(** [lib/env.ts]: the variables the modelled functions read. *)
Record Env : Type := { ENCRYPTION_KEY : string }.

(* ====================================================================== *)
(** * lib/crypto.ts *)
(* ====================================================================== *)

Section Vault.
Context {C : NodeCrypto} (env : Env).

Definition IV_LENGTH : nat := 16.

Definition getKey : list byte :=
  sha256 (Buffer.from_utf8 (ENCRYPTION_KEY env)).

(** [encrypt(text)]; [iv] is the value [randomBytes(IV_LENGTH)] returns. *)
Definition encrypt (iv : list byte) (text : JSString) : result string :=
  if gcm_iv_ok iv then
    let sealed := gcm_seal getKey iv (Buffer.from_string text) in
    let encrypted := Buffer.toString_hex sealed.1 in
    let authTag := sealed.2 in
    Ok (Buffer.toString_hex iv +:+ ":" +:+ Buffer.toString_hex authTag
          +:+ ":" +:+ encrypted)
  else Err InvalidIV.

(** [decrypt(encryptedText)].  The array destructuring reads the first
    three elements of the split and ignores any further one; a missing
    element is [undefined].  The IV and the tag go through [Buffer.from],
    the ciphertext through the decipher's [update]. *)
Definition decrypt (encryptedText : string) : result JSString :=
  let parts := split ":" encryptedText in
  let ivHex := parts !! 0%nat in
  let authTagHex := parts !! 1%nat in
  let encrypted := parts !! 2%nat in
  iv ← Buffer.from ivHex;
  authTag ← Buffer.from authTagHex;
  _ ← (if gcm_iv_ok iv then Ok () else Err InvalidIV);
  _ ← (if gcm_tag_ok authTag then Ok () else Err InvalidAuthTag);
  data ← Buffer.update_hex encrypted;
  match gcm_open getKey iv authTag data with
  | Some decrypted => Ok (Buffer.toString_utf8 decrypted)
  | None => Err AuthenticationFailed
  end.

End Vault.

(* ====================================================================== *)
(** * JavaScript values *)
(* ====================================================================== *)

(** [JSON.stringify] and [JSON.parse] over the JSON values Node handles.
    [JSON.stringify] returns a well-formed string; [JSON.parse] is given the
    string [decrypt] returns. *)
Class NodeJSON : Type := {
  Json : Type;
  JSON_stringify : Json → string;
  (** [None] when [JSON.parse] throws a [SyntaxError] *)
  JSON_parse : JSString → option Json
}.

(** An optional string is [undefined] or a string; the empty string is falsy
    like [undefined]. *)
Definition truthy (s : option string) : bool :=
  match s with
  | Some EmptyString => false
  | Some _ => true
  | None => false
  end.

(** [s || undefined] *)
Definition or_undefined (s : option string) : option string :=
  if truthy s then s else None.

(** [n || 0] for a number that may be [undefined]. *)
Definition or_0 (n : option Z) : Z :=
  match n with
  | Some v => if (v =? 0)%Z then 0%Z else v
  | None => 0%Z
  end.

(** [String(n)] and the interpolation of an integer in a template string. *)
Definition String_of_number (n : Z) : string := pretty n.

(** A point in time is its number of milliseconds since the epoch. *)
Definition Date : Type := Z.
Bind Scope Z_scope with Date.

(** [new Date(x)] for a number [x]: the time value is [x] truncated towards
    zero (the modelled values are far inside the range of valid dates). *)
Definition new_Date_of (x : Q) : Date :=
  if Qle_bool 0 x then Qfloor x else Qceiling x.

(* ====================================================================== *)
(** * lib/schema.ts *)
(* ====================================================================== *)

(** The keys of the tables are columns of type [uuid].  The store reads the
    text it is given for such a column as PostgreSQL's [uuid_in] does:
    sixteen bytes of two hexadecimal digits of either case, a hyphen being
    allowed after every second byte but the last, the whole optionally
    between braces.  It prints a uuid in lower case, with hyphens after the
    bytes 4, 6, 8 and 10. *)
Module Uuid.

Fixpoint read (n i : nat) (src : string) : option (list N * string) :=
  match n with
  | O => Some ([], src)
  | S n' =>
      match src with
      | String a (String b rest) =>
          match Buffer.hex_value a, Buffer.hex_value b with
          | Some h, Some l =>
              let rest' :=
                match rest with
                | String "-" after => if Nat.odd i && (i <? 15)%nat then after else rest
                | _ => rest
                end in
              match read n' (S i) rest' with
              | Some (data, tail) => Some ((16 * h + l)%N :: data, tail)
              | None => None
              end
          | _, _ => None
          end
      | _ => None
      end
  end.

Definition parse (source : string) : option (list N) :=
  let '(braces, src) :=
    match source with
    | String "{" rest => (true, rest)
    | _ => (false, source)
    end in
  match read 16 0 src with
  | Some (data, tail) =>
      if braces then (if String.eqb tail "}" then Some data else None)
      else (if String.eqb tail EmptyString then Some data else None)
  | None => None
  end.

Fixpoint print_from (i : nat) (data : list N) : string :=
  match data with
  | [] => EmptyString
  | b :: rest =>
      let digits :=
        String (Buffer.hex_digit (b / 16)) (String (Buffer.hex_digit (b mod 16))
          (print_from (S i) rest)) in
      if (Nat.eqb i 4 || Nat.eqb i 6 || Nat.eqb i 8 || Nat.eqb i 10)%bool
      then String "-" digits else digits
  end.

Definition print (data : list N) : string := print_from 0 data.

(** The text under which the store holds the uuid that [text] denotes;
    [None] when the store refuses [text] (invalid input syntax, 22P02). *)
Definition input (text : string) : option string := print <$> parse text.

End Uuid.

(** A text a [varchar(n)] column takes as it is: at most [n] characters, none
    of them NUL.  The length is counted on the UTF-8 form, which has at least
    as many bytes as the text has characters. *)
Definition varchar_takes (n : nat) (s : string) : bool :=
  (String.length s <=? n)%nat && forallb (λ c, negb (Ascii.eqb c Ascii.zero)) (chars s).

Section Schema.
Context {J : NodeJSON}.

(** A row of [processor_configs]. *)
Record ProcessorConfig : Type := {
  pc_id : string;
  pc_merchantId : string;
  pc_processor : string;
  pc_credentialsEncrypted : string;
  pc_priority : Z;
  pc_enabled : bool;
  pc_testMode : bool;
  pc_createdAt : Date;
  pc_updatedAt : Date
}.

(** A row of [orders], without its primary key [id]. *)
Record Order : Type := {
  o_merchantId : string;
  o_externalId : string;
  o_amount : Z;
  o_currency : string;
  o_status : string;
  o_processor : option string;
  o_processorOrderId : option string;
  o_metadata : option Json;
  o_customerId : option string;
  o_customerEmail : option string;
  o_description : option string;
  o_returnUrl : option string;
  o_cancelUrl : option string;
  o_workflowId : option string;
  o_createdAt : Date;
  o_updatedAt : Date
}.

(** A row of [transactions]. *)
Record Transaction : Type := {
  t_id : string;
  t_orderId : string;
  t_type : string;
  t_amount : Z;
  t_status : string;
  t_processorTransactionId : option string;
  t_processorResponse : option Json;
  t_errorCode : option string;
  t_errorMessage : option string;
  t_createdAt : Date
}.

(** A row of [webhook_events], without its primary key [id]. *)
Record WebhookEvent : Type := {
  we_merchantId : string;
  we_orderId : option string;
  we_eventType : string;
  we_payload : Json;
  we_status : string;
  we_attempts : Z;
  we_lastAttemptAt : option Date;
  we_nextRetryAt : option Date;
  we_deliveredAt : option Date;
  we_workflowId : option string;
  we_createdAt : Date
}.

(** The store.  [orders] and [webhook_events] are only reached through their
    primary key and are maps from it; [processor_configs] is searched by a
    predicate and keeps the order in which the store scans it;
    [transactions] is only appended to. *)
Record Store : Type := {
  orders : gmap string Order;
  transactions : list Transaction;
  processorConfigs : list ProcessorConfig;
  webhookEvents : gmap string WebhookEvent
}.

(** ** The query builder

    The object given to [update(..).set(..)] names the columns to write: a
    key whose value is [undefined] is left out of the statement and its
    column keeps the stored value.  [updateOrderStatus] relies on it when it
    passes [processorOrderId || undefined], to write the processor order id
    only if one is given.  No statement of the worker writes [null]. *)

Definition assign {A : Type} (new : option A) (old : A) : A :=
  match new with
  | Some v => v
  | None => old
  end.

Definition assign_nullable {A : Type} (new : option A) (old : option A) : option A :=
  match new with
  | Some v => Some v
  | None => old
  end.

(** The keys [updateOrderStatus] gives to [set]. *)
Record OrderSet : Type := {
  set_o_status : option string;
  set_o_processorOrderId : option string;
  set_o_updatedAt : option Date
}.

Definition set_order (v : OrderSet) (o : Order) : Order :=
  {| o_merchantId := o_merchantId o;
     o_externalId := o_externalId o;
     o_amount := o_amount o;
     o_currency := o_currency o;
     o_status := assign (set_o_status v) (o_status o);
     o_processor := o_processor o;
     o_processorOrderId := assign_nullable (set_o_processorOrderId v) (o_processorOrderId o);
     o_metadata := o_metadata o;
     o_customerId := o_customerId o;
     o_customerEmail := o_customerEmail o;
     o_description := o_description o;
     o_returnUrl := o_returnUrl o;
     o_cancelUrl := o_cancelUrl o;
     o_workflowId := o_workflowId o;
     o_createdAt := o_createdAt o;
     o_updatedAt := assign (set_o_updatedAt v) (o_updatedAt o) |}.

(** The keys [deliverWebhook] gives to [set]. *)
Record WebhookEventSet : Type := {
  set_we_status : option string;
  set_we_attempts : option Z;
  set_we_lastAttemptAt : option Date;
  set_we_deliveredAt : option Date;
  set_we_nextRetryAt : option Date
}.

Definition set_webhookEvent (v : WebhookEventSet) (e : WebhookEvent) : WebhookEvent :=
  {| we_merchantId := we_merchantId e;
     we_orderId := we_orderId e;
     we_eventType := we_eventType e;
     we_payload := we_payload e;
     we_status := assign (set_we_status v) (we_status e);
     we_attempts := assign (set_we_attempts v) (we_attempts e);
     we_lastAttemptAt := assign_nullable (set_we_lastAttemptAt v) (we_lastAttemptAt e);
     we_nextRetryAt := assign_nullable (set_we_nextRetryAt v) (we_nextRetryAt e);
     we_deliveredAt := assign_nullable (set_we_deliveredAt v) (we_deliveredAt e);
     we_workflowId := we_workflowId e;
     we_createdAt := we_createdAt e |}.

(** [db.update(orders).set(v).where(eq(orders.id, id))]: no row, no change. *)
Definition update_orders (v : OrderSet) (id : string) (db : Store) : Store :=
  {| orders := alter (set_order v) id (orders db);
     transactions := transactions db;
     processorConfigs := processorConfigs db;
     webhookEvents := webhookEvents db |}.

(** [db.update(webhookEvents).set(v).where(eq(webhookEvents.id, id))] *)
Definition update_webhookEvents (v : WebhookEventSet) (id : string) (db : Store) : Store :=
  {| orders := orders db;
     transactions := transactions db;
     processorConfigs := processorConfigs db;
     webhookEvents := alter (set_webhookEvent v) id (webhookEvents db) |}.

(** [db.insert(transactions).values(row)] *)
Definition insert_transactions (row : Transaction) (db : Store) : Store :=
  {| orders := orders db;
     transactions := transactions db ++ [row];
     processorConfigs := processorConfigs db;
     webhookEvents := webhookEvents db |}.

(** [db.select().from(processorConfigs).where(and(eq(merchantId, m),
    eq(processor, p))).limit(1)]: the first matching row the scan meets,
    as the zero- or one-element array the query returns. *)
Definition select_processorConfigs (m p : string) (db : Store) : list ProcessorConfig :=
  match List.find (λ r, bool_decide (pc_merchantId r = m) && bool_decide (pc_processor r = p))
          (processorConfigs db) with
  | Some r => [r]
  | None => []
  end.

End Schema.

(* ====================================================================== *)
(** * The world outside the worker *)
(* ====================================================================== *)

(** What [fetch] can throw: an [Error] with its message (a network failure,
    the 30 second abort), or a value that is not an [Error]. *)
Inductive Thrown : Type :=
  | ErrorObject (message : string)
  | OtherValue.

Inductive FetchOutcome : Type :=
  | Response (status : Z)
  | Throws (error : Thrown).

(** The request [fetch] is given. *)
Record Request : Type := {
  req_url : string;
  req_method : string;
  req_headers : gmap string string;
  req_body : string
}.

(** The oracles, indexed by the number of effects performed so far: the
    system clock ([Date.now()], [new Date()]), the remote endpoint, and the
    defaults the store generates for an inserted row. *)
Record World : Type := {
  clock : nat → Z;
  remote : nat → Request → FetchOutcome;
  random_uuid : nat → string;
  store_now : nat → Date
}.

Section Effects.
Context {J : NodeJSON}.

(** The state an invocation threads: the store, the number of effects
    performed, and the requests sent so far. *)
Record State : Type := {
  db : Store;
  ticks : nat;
  sent : list Request
}.

Definition M (A : Type) : Type := State → A * State.

#[global] Instance M_ret : MRet M := λ A a s, (a, s).
#[global] Instance M_bind : MBind M := λ A B k m s, let '(a, s') := m s in k a s'.

Definition tick : M nat := λ s,
  (ticks s, {| db := db s; ticks := S (ticks s); sent := sent s |}).

Definition query {A : Type} (f : Store → A) : M A := λ s, (f (db s), s).

Definition exec (f : Store → Store) : M unit := λ s,
  ((), {| db := f (db s); ticks := ticks s; sent := sent s |}).

Definition Date_now (w : World) : M Z :=
  n ← tick; mret (clock w n).

Definition new_Date (w : World) : M Date := Date_now w.

Definition fetch (w : World) (req : Request) : M FetchOutcome := λ s,
  (remote w (ticks s) req,
   {| db := db s; ticks := S (ticks s); sent := sent s ++ [req] |}).

End Effects.

(* ====================================================================== *)
(** * functions/db.ts *)
(* ====================================================================== *)

Section Functions.
Context {C : NodeCrypto} {J : NodeJSON} (env : Env) (w : World).

Record PaymentConfig : Type := {
  merchantId : string;
  processor : string;
  testMode : bool;
  credentials : Json
}.

Record UpdateOrderStatusInput : Type := {
  orderId : string;
  status : string;
  processorOrderId : option string;
  processorTransactionId : option string
}.

Record WebhookDeliveryInput : Type := {
  webhookEventId : string;
  webhookUrl : string;
  webhookSecret : option string;
  payload : Json
}.

Record WebhookDeliveryResult : Type := {
  success : bool;
  statusCode : option Z;
  attempts : Z;
  deliveredAt : option Date;
  errorMessage : option string
}.

(** ** Get Processor Config *)

Definition getProcessorConfig (input_merchantId input_processor : string) (db : Store)
  : result (option PaymentConfig) :=
  let config := select_processorConfigs input_merchantId input_processor db in
  match config with
  | [] => Ok None
  | config0 :: _ =>
      plaintext ← decrypt env (pc_credentialsEncrypted config0);
      parsed ← match JSON_parse plaintext with
               | Some j => Ok j
               | None => Err SyntaxError
               end;
      Ok (Some {| merchantId := input_merchantId;
                  processor := input_processor;
                  testMode := pc_testMode config0;
                  credentials := parsed |})
  end.

(** ** Update Order Status *)

Definition updateOrderStatus (input : UpdateOrderStatusInput) : M unit :=
  updatedAt ← new_Date w;
  _ ← exec (update_orders
              {| set_o_status := Some (status input);
                 set_o_processorOrderId := or_undefined (processorOrderId input);
                 set_o_updatedAt := Some updatedAt |}
              (orderId input));
  if truthy (processorTransactionId input) then
    order ← query (λ db, orders db !! orderId input);
    match order with
    | Some order0 =>
        n ← tick;
        exec (insert_transactions
                {| t_id := random_uuid w n;
                   t_orderId := orderId input;
                   t_type := if String.eqb (status input) "captured" then "capture"
                             else if String.eqb (status input) "authorized" then "authorization"
                             else "authorization";
                   t_amount := o_amount order0;
                   t_status := if String.eqb (status input) "failed" then "failed" else "success";
                   t_processorTransactionId := processorTransactionId input;
                   t_processorResponse := None;
                   t_errorCode := None;
                   t_errorMessage := None;
                   t_createdAt := store_now w n |})
    | None => mret ()
    end
  else mret ().

(** ** Deliver Webhook *)

Definition getRetryDelay (attempt : Z) : Q :=
  let baseDelay := (60 * 1000)%Q in
  let maxDelay := (24 * 60 * 60 * 1000)%Q in
  let delay := (baseDelay * 2 ^ (attempt - 1))%Q in
  Qmin delay maxDelay.

(** [response.ok] *)
Definition ok (status : Z) : bool := ((200 <=? status) && (status <=? 299))%Z.

(** The headers and body of the request, from the reading [now] of the clock
    (lines 197 to 210 of the function). *)
Definition signedRequest (input : WebhookDeliveryInput) (now : Z) : Request :=
  let body := JSON_stringify (payload input) in
  let headers : gmap string string :=
    <["X-Loop-Timestamp" := String_of_number now]>
      (<["X-Loop-Event-Id" := webhookEventId input]>
         (<["Content-Type" := "application/json"]> ∅)) in
  let headers :=
    if truthy (webhookSecret input) then
      let timestamp := default "undefined" (headers !! "X-Loop-Timestamp") in
      let signaturePayload := timestamp +:+ "." +:+ body in
      let signature :=
        Buffer.toString_hex
          (hmac_sha256 (Buffer.from_utf8 (default EmptyString (webhookSecret input)))
             (Buffer.from_utf8 signaturePayload)) in
      <["X-Loop-Signature" := "v1=" +:+ signature]> headers
    else headers in
  {| req_url := webhookUrl input;
     req_method := "POST";
     req_headers := headers;
     req_body := body |}.

(** [new Date(Date.now() + getRetryDelay(attempts))] *)
Definition retryDate (now : Z) (attempts : Z) : Date :=
  new_Date_of (inject_Z now + getRetryDelay attempts).

Definition deliverWebhook (input : WebhookDeliveryInput) : M WebhookDeliveryResult :=
  event ← query (λ db, webhookEvents db !! webhookEventId input);
  let attempts := (or_0 (we_attempts <$> event) + 1)%Z in
  now ← Date_now w;
  outcome ← fetch w (signedRequest input now);
  match outcome with
  | Response response_status =>
      let success := ok response_status in
      lastAttemptAt ← new_Date w;
      deliveredAt ← (if success then (d ← new_Date w; mret (Some d)) else mret None);
      nextRetryAt ← (if success then mret None
                     else (now ← Date_now w; mret (Some (retryDate now attempts))));
      _ ← exec (update_webhookEvents
                  {| set_we_status := Some (if success then "delivered" else "pending");
                     set_we_attempts := Some attempts;
                     set_we_lastAttemptAt := Some lastAttemptAt;
                     set_we_deliveredAt := deliveredAt;
                     set_we_nextRetryAt := nextRetryAt |}
                  (webhookEventId input));
      deliveredAt' ← (if success then (d ← new_Date w; mret (Some d)) else mret None);
      mret {| success := success;
              statusCode := Some response_status;
              attempts := attempts;
              deliveredAt := deliveredAt';
              errorMessage := if success then None
                              else Some ("HTTP " +:+ String_of_number response_status) |}
  | Throws error =>
      let errorMessage := match error with
                          | ErrorObject message => message
                          | OtherValue => "Unknown error"
                          end in
      lastAttemptAt ← new_Date w;
      nextRetryAt ← (if (5 <=? attempts)%Z then mret None
                     else (now ← Date_now w; mret (Some (retryDate now attempts))));
      _ ← exec (update_webhookEvents
                  {| set_we_status := Some (if (5 <=? attempts)%Z then "failed" else "pending");
                     set_we_attempts := Some attempts;
                     set_we_lastAttemptAt := Some lastAttemptAt;
                     set_we_deliveredAt := None;
                     set_we_nextRetryAt := nextRetryAt |}
                  (webhookEventId input));
      mret {| success := false;
              statusCode := None;
              attempts := attempts;
              deliveredAt := None;
              errorMessage := Some errorMessage |}
  end.

End Functions.

(** Running an invocation: its result and the state it leaves. *)
Definition result_of {J : NodeJSON} {A : Type} (m : M A) (s : State) : A := (m s).1.
Definition state_after {J : NodeJSON} {A : Type} (m : M A) (s : State) : State := (m s).2.

(** Rewriting the two columns of [processor_configs] that no query of the
    worker reads. *)
Definition with_priority_enabled (priority : Z) (enabled : bool) (r : ProcessorConfig)
  : ProcessorConfig :=
  {| pc_id := pc_id r;
     pc_merchantId := pc_merchantId r;
     pc_processor := pc_processor r;
     pc_credentialsEncrypted := pc_credentialsEncrypted r;
     pc_priority := priority;
     pc_enabled := enabled;
     pc_testMode := pc_testMode r;
     pc_createdAt := pc_createdAt r;
     pc_updatedAt := pc_updatedAt r |}.

Definition with_processorConfigs {J : NodeJSON} (rows : list ProcessorConfig) (db : Store)
  : Store :=
  {| orders := orders db;
     transactions := transactions db;
     processorConfigs := rows;
     webhookEvents := webhookEvents db |}.

(** What [getProcessorConfig] returns from a row: only the encrypted credentials
    and the test-mode flag of the row are read. *)
Definition config_of_row {C : NodeCrypto} {J : NodeJSON} (env : Env) (m p : string)
    (r : ProcessorConfig) : result (option PaymentConfig) :=
  plaintext ← decrypt env (pc_credentialsEncrypted r);
  parsed ← match JSON_parse plaintext with
           | Some j => Ok j
           | None => Err SyntaxError
           end;
  Ok (Some {| merchantId := m; processor := p;
              testMode := pc_testMode r; credentials := parsed |}).

(** The attempt number of an invocation of [deliverWebhook] and the request
    it sends, from the state it starts in. *)
Definition attempt_of {J : NodeJSON} (input : WebhookDeliveryInput) (s : State) : Z :=
  (or_0 (we_attempts <$> (webhookEvents (db s) !! webhookEventId input)) + 1)%Z.

Definition request_of {C : NodeCrypto} {J : NodeJSON} (w : World)
    (input : WebhookDeliveryInput) (s : State) : Request :=
  signedRequest input (clock w (ticks s)).

(** The lowercase hexadecimal alphabet. *)
Definition lower_hex (c : ascii) : bool :=
  let n := N_of_ascii c in
  (((48 <=? n) && (n <=? 57)) || ((97 <=? n) && (n <=? 102)))%N.

(* ====================================================================== *)
(** * A small instance, for the examples *)
(* ====================================================================== *)

(** The examples name their rows by short labels such as [o-1]; an example
    that depends on what the store makes of the text of an id spells a uuid
    out. *)
Module Demo.

Fixpoint bytes_eqb (a b : list byte) : bool :=
  match a, b with
  | [], [] => true
  | x :: a', y :: b' => Byte.eqb x y && bytes_eqb a' b'
  | _, _ => false
  end.

(** A stand-in for the tag: sixteen bytes read from the key, the IV and the
    ciphertext. *)
Definition tag_of (key iv ct : list byte) : list byte :=
  take 16 (ct ++ iv ++ key ++ replicate 16 x00).

(** A stand-in for Node's primitives that has the shape of an AEAD: the
    ciphertext is the reversed plaintext, and opening checks the tag. *)
Definition crypto : NodeCrypto :=
  {| sha256 := λ data, take 32 (data ++ replicate 32 x00);
     hmac_sha256 := λ key data, take 32 (key ++ data ++ replicate 32 x00);
     gcm_iv_ok := λ iv, negb (Nat.eqb (length iv) 0);
     gcm_tag_ok := λ tag, Nat.eqb (length tag) 16;
     gcm_seal := λ key iv pt, (rev pt, tag_of key iv (rev pt));
     gcm_open := λ key iv tag ct,
       if bytes_eqb tag (tag_of key iv ct) then Some (rev ct) else None |}.

(** JSON values as their text, which is made of ASCII characters in the
    examples: a code unit is read as the character of its number. *)
Definition json : NodeJSON :=
  {| Json := string;
     JSON_stringify := λ j, j;
     JSON_parse := λ s, Some (string_of_list_ascii (ascii_of_N <$> s)) |}.

Definition text (s : string) : @Json json := s.

Definition env : Env :=
  {| ENCRYPTION_KEY := "0123456789abcdef0123456789abcdef" |}.

Definition iv : list byte := replicate 16 x2a.

(** The clock advances by one second per effect; the endpoint answers 500
    to the first invocation and 200 afterwards. *)
Definition world : World :=
  {| clock := λ n, (1700000000000 + 1000 * Z.of_nat n)%Z;
     remote := λ n _, if (n <? 4)%nat then Response 500 else Response 200;
     random_uuid := λ n, "txn-" +:+ pretty n;
     store_now := λ n, (1700000000000 + 1000 * Z.of_nat n)%Z |}.

(** The endpoint is unreachable. *)
Definition offline : World :=
  {| clock := clock world;
     remote := λ _ _, Throws (ErrorObject "fetch failed");
     random_uuid := random_uuid world;
     store_now := store_now world |}.

(** A webhook event as [createWebhookEvent] inserts it. *)
Definition event : @WebhookEvent json :=
  {| we_merchantId := "m-1";
     we_orderId := Some "o-1";
     we_eventType := "payment.captured";
     we_payload := text "{}";
     we_status := "pending";
     we_attempts := 0;
     we_lastAttemptAt := None;
     we_nextRetryAt := None;
     we_deliveredAt := None;
     we_workflowId := None;
     we_createdAt := 1699999999000 |}.

Definition order : @Order json :=
  {| o_merchantId := "m-1";
     o_externalId := "ext-1";
     o_amount := 4200;
     o_currency := "USD";
     o_status := "pending";
     o_processor := Some "stripe";
     o_processorOrderId := None;
     o_metadata := None;
     o_customerId := None;
     o_customerEmail := None;
     o_description := None;
     o_returnUrl := None;
     o_cancelUrl := None;
     o_workflowId := None;
     o_createdAt := 1699999990000;
     o_updatedAt := 1699999990000 |}.

Definition config (id : string) (blob : string) (priority : Z) (enabled : bool)
  : ProcessorConfig :=
  {| pc_id := id;
     pc_merchantId := "m-1";
     pc_processor := "stripe";
     pc_credentialsEncrypted := blob;
     pc_priority := priority;
     pc_enabled := enabled;
     pc_testMode := true;
     pc_createdAt := 1699999990000;
     pc_updatedAt := 1699999990000 |}.

Definition blob (text : string) : string :=
  match @encrypt crypto env iv (Buffer.code_units text) with
  | Ok envelope => envelope
  | Err _ => EmptyString
  end.

Definition store : @Store json :=
  {| orders := {[ "o-1" := order ]};
     transactions := [];
     processorConfigs :=
       [ config "c-1" (blob "[1]") 9 false; config "c-2" (blob "[2]") 1 true ];
     webhookEvents := {[ "evt-1" := event ]} |}.

Definition state : @State json := {| db := store; ticks := 0; sent := [] |}.

Definition delivery (secret : option string) : @WebhookDeliveryInput json :=
  {| webhookEventId := "evt-1";
     webhookUrl := "https://merchant.example/hook";
     webhookSecret := secret;
     payload := text "{}" |}.

Definition update (id status : string) (txn : option string) : UpdateOrderStatusInput :=
  {| orderId := id;
     status := status;
     processorOrderId := None;
     processorTransactionId := txn |}.

(** One invocation of [deliverWebhook] for the event, in a given world. *)
Definition deliver (w : World) (secret : option string) (s : State)
  : WebhookDeliveryResult * State :=
  @deliverWebhook crypto json w (delivery secret) s.

(** The endpoint answers 500, then 200. *)
Definition after_500 : State := (deliver world None state).2.
Definition after_500_200 : WebhookDeliveryResult * State := deliver world None after_500.

(** [n] invocations in a row while the endpoint is unreachable. *)
Definition after_failures (n : nat) : State :=
  Nat.iter n (λ s, (deliver offline None s).2) state.

End Demo.

(* ====================================================================== *)
(** * functions/db.ts: the functions that read and create *)
(* ====================================================================== *)

(** A row of [merchants], without its primary key [id].  No statement of the
    worker writes this table; the functions that read it or refer to it take
    it as an argument. *)
Record Merchant : Type := {
  m_name : string;
  m_email : string;
  m_passwordHash : string;
  m_webhookUrl : option string;
  m_webhookSecret : option string;
  m_createdAt : Date;
  m_updatedAt : Date
}.

(** [s || null] *)
Definition or_null (s : option string) : option string :=
  if truthy s then s else None.

(** What [getMerchantWebhookUrl] returns; [None] is [null]. *)
Record MerchantWebhook : Type := {
  url : option string;
  secret : option string
}.

(** ** Get Merchant Webhook URL *)

Definition getMerchantWebhookUrl (merchants : gmap string Merchant) (input_merchantId : string)
  : MerchantWebhook :=
  let merchant := merchants !! input_merchantId in
  {| url := or_null (merchant ≫= m_webhookUrl);
     secret := or_null (merchant ≫= m_webhookSecret) |}.

(** What the store answers to a statement it rejects. *)
Inductive StoreError : Type :=
  | UniqueViolation
  | ForeignKeyViolation
  | InvalidTextRepresentation.

Section ReadAndCreate.
Context {C : NodeCrypto} {J : NodeJSON} (w : World).

(** ** Get Order *)

(** [order[0] || null]; the row is returned under the id that was asked. *)
Definition getOrder (input_orderId : string) : M (option Order) :=
  query (λ db, orders db !! input_orderId).

(** ** Create Webhook Event *)

Record CreateWebhookEventInput : Type := {
  new_merchantId : string;
  new_orderId : string;
  new_eventType : string;
  new_payload : Json
}.

Definition insert_webhookEvents (id : string) (row : WebhookEvent) (db : Store) : Store :=
  {| orders := orders db;
     transactions := transactions db;
     processorConfigs := processorConfigs db;
     webhookEvents := <[id := row]> (webhookEvents db) |}.

(** [createWebhookEvent(input)].  The store generates the id and the creation
    time and fills the columns the insert leaves out with their defaults.
    It rejects the row when the id is taken or when the merchant or the order
    it refers to does not exist, and the function then throws: the
    result is the error on the left, the generated id on the right.  The
    other reasons the store has to reject a row, such as the width of a
    column, are left out. *)
Definition createWebhookEvent (merchants : gmap string Merchant)
    (input : CreateWebhookEventInput) : M (StoreError + string) :=
  n ← tick;
  let id := random_uuid w n in
  let row :=
    {| we_merchantId := new_merchantId input;
       we_orderId := Some (new_orderId input);
       we_eventType := new_eventType input;
       we_payload := new_payload input;
       we_status := "pending";
       we_attempts := 0;
       we_lastAttemptAt := None;
       we_nextRetryAt := None;
       we_deliveredAt := None;
       we_workflowId := None;
       we_createdAt := store_now w n |} in
  taken ← query (λ db, webhookEvents db !! id);
  order ← query (λ db, orders db !! new_orderId input);
  match taken, merchants !! new_merchantId input, order with
  | Some _, _, _ => mret (inl UniqueViolation)
  | None, Some _, Some _ =>
      _ ← exec (insert_webhookEvents id row);
      mret (inr id)
  | None, _, _ => mret (inl ForeignKeyViolation)
  end.

(** [n] invocations of [deliverWebhook] for the same input, one after the
    other. *)
Definition deliverWebhook_times (input : WebhookDeliveryInput) (n : nat) (s : State) : State :=
  Nat.iter n (state_after (deliverWebhook w input)) s.

(** ** Update Order Status, on the store's uuid column

    [orders.id] is a uuid: the first statement of [updateOrderStatus], the
    update, makes the store read the order id as one.  Text the store refuses
    makes the function throw there, after the clock was read for [updatedAt]
    and before any row is touched; otherwise the statements reach the row
    held under the uuid the text denotes.  The result is the error on the
    left, the return on the right. *)
Definition invoke_updateOrderStatus (input : UpdateOrderStatusInput)
  : M (StoreError + unit) :=
  match Uuid.input (orderId input) with
  | Some id =>
      _ ← updateOrderStatus w {| orderId := id;
                                 status := status input;
                                 processorOrderId := processorOrderId input;
                                 processorTransactionId := processorTransactionId input |};
      mret (inr ())
  | None =>
      _ ← new_Date w;
      mret (inl InvalidTextRepresentation)
  end.

End ReadAndCreate.

(** The test of the query of [getProcessorConfig]. *)
Definition config_matches (m p : string) (r : ProcessorConfig) : bool :=
  bool_decide (pc_merchantId r = m) && bool_decide (pc_processor r = p).

(** The columns of a webhook event no invocation of [deliverWebhook] writes. *)
Definition same_event_identity {J : NodeJSON} (a b : WebhookEvent) : Prop :=
  we_merchantId a = we_merchantId b
  ∧ we_orderId a = we_orderId b
  ∧ we_eventType a = we_eventType b
  ∧ we_payload a = we_payload b
  ∧ we_workflowId a = we_workflowId b
  ∧ we_createdAt a = we_createdAt b.

(** The columns of an order [updateOrderStatus] does not write. *)
Definition same_order_details {J : NodeJSON} (a b : Order) : Prop :=
  o_merchantId a = o_merchantId b
  ∧ o_externalId a = o_externalId b
  ∧ o_amount a = o_amount b
  ∧ o_currency a = o_currency b
  ∧ o_processor a = o_processor b
  ∧ o_metadata a = o_metadata b
  ∧ o_customerId a = o_customerId b
  ∧ o_customerEmail a = o_customerEmail b
  ∧ o_description a = o_description b
  ∧ o_returnUrl a = o_returnUrl b
  ∧ o_cancelUrl a = o_cancelUrl b
  ∧ o_workflowId a = o_workflowId b
  ∧ o_createdAt a = o_createdAt b.

(** More example data. *)
Module Scenario.

Definition merchant (hook key : option string) : Merchant :=
  {| m_name := "Acme";
     m_email := "ops@acme.example";
     m_passwordHash := "x";
     m_webhookUrl := hook;
     m_webhookSecret := key;
     m_createdAt := 1699999000000;
     m_updatedAt := 1699999000000 |}.

Definition merchants : gmap string Merchant :=
  {[ "m-1" := merchant (Some "https://merchant.example/hook") (Some "whsec_1");
     "m-2" := merchant (Some EmptyString) None ]}.

(** The endpoint answers 503 to every request. *)
Definition unavailable : World :=
  {| clock := clock Demo.world;
     remote := λ _ _, Response 503;
     random_uuid := random_uuid Demo.world;
     store_now := store_now Demo.world |}.

(** The endpoint answers 204 to every request. *)
Definition healthy : World :=
  {| clock := clock Demo.world;
     remote := λ _ _, Response 204;
     random_uuid := λ n, "evt-new-" +:+ pretty n;
     store_now := store_now Demo.world |}.

Definition new_event (m o : string) : @CreateWebhookEventInput Demo.json :=
  {| new_merchantId := m;
     new_orderId := o;
     new_eventType := "payment.captured";
     new_payload := Demo.text "{}" |}.

(** A first processor configuration whose credentials are not an envelope,
    before a sound one. *)
Definition store_with_corrupt_config : @Store Demo.json :=
  @with_processorConfigs Demo.json
    [ Demo.config "c-0" "not-an-envelope" 1 true;
      Demo.config "c-2" (Demo.blob "[2]") 1 true ]
    Demo.store.

End Scenario.

(* ====================================================================== *)
(** * Hexadecimal text and splitting *)
(* ====================================================================== *)

Lemma hex_digits_of_byte (b : byte) :
  Buffer.hex_value (Buffer.hex_digit (Buffer.N_of_byte b / 16))
    = Some (Buffer.N_of_byte b / 16)%N
  ∧ Buffer.hex_value (Buffer.hex_digit (Buffer.N_of_byte b mod 16))
    = Some (Buffer.N_of_byte b mod 16)%N
  ∧ Buffer.byte_of_N (16 * (Buffer.N_of_byte b / 16) + Buffer.N_of_byte b mod 16) = b.
Proof. destruct b; vm_compute; auto. Qed.

Lemma hex_digits_lower (b : byte) :
  lower_hex (Buffer.hex_digit (Buffer.N_of_byte b / 16)) = true
  ∧ lower_hex (Buffer.hex_digit (Buffer.N_of_byte b mod 16)) = true.
Proof. destruct b; vm_compute; auto. Qed.

(** Decoding the hexadecimal text of a buffer gives the buffer back. *)
Lemma from_hex_toString_hex (buf : list byte) :
  Buffer.from_hex (Buffer.toString_hex buf) = buf.
Proof.
  induction buf as [|b buf IH]; [reflexivity|].
  destruct (hex_digits_of_byte b) as (Hh & Hl & Hb).
  cbn [Buffer.toString_hex Buffer.from_hex].
  rewrite Hh, Hl, Hb. f_equal. exact IH.
Qed.

(** [toString('hex')] writes lowercase hexadecimal digits only. *)
Lemma toString_hex_lower (buf : list byte) :
  Forall (λ c, lower_hex c = true) (chars (Buffer.toString_hex buf)).
Proof.
  induction buf as [|b buf IH]; cbn [Buffer.toString_hex chars]; [constructor|].
  destruct (hex_digits_lower b) as [Hh Hl].
  repeat constructor; assumption.
Qed.

Lemma toString_hex_no_colon (buf : list byte) :
  Forall (λ c, c ≠ ":"%char) (chars (Buffer.toString_hex buf)).
Proof.
  eapply Forall_impl; [apply toString_hex_lower|].
  intros c Hc ->. discriminate Hc.
Qed.

Lemma split_nonempty (sep : ascii) (s : string) : split sep s ≠ [].
Proof.
  destruct s as [|c s]; cbn [split]; [discriminate|].
  destruct (Ascii.eqb c sep); [discriminate|].
  destruct (split sep s); discriminate.
Qed.

(** A string without the separator is the only part of its split. *)
Lemma split_no_sep (sep : ascii) (s : string) :
  Forall (λ c, c ≠ sep) (chars s) → split sep s = [s].
Proof.
  induction s as [|c s IH]; cbn [split chars]; intros H; [reflexivity|].
  inversion H as [|? ? Hc Hs]; subst.
  destruct (Ascii.eqb_spec c sep) as [->|_]; [contradiction|].
  rewrite (IH Hs). reflexivity.
Qed.

Lemma append_empty (t : string) : EmptyString +:+ t = t.
Proof. reflexivity. Qed.

Lemma append_String (c : ascii) (s t : string) : String c s +:+ t = String c (s +:+ t).
Proof. reflexivity. Qed.

(** The split of [s:t], when [s] holds no separator. *)
Lemma split_app (sep : ascii) (s t : string) :
  Forall (λ c, c ≠ sep) (chars s) →
  split sep (s +:+ String sep t) = s :: split sep t.
Proof.
  induction s as [|c s IH]; intros H;
    rewrite ?append_empty, ?append_String; cbn [split chars] in *.
  - rewrite Ascii.eqb_refl. reflexivity.
  - inversion H as [|? ? Hc Hs]; subst.
    destruct (Ascii.eqb_spec c sep) as [->|_]; [contradiction|].
    rewrite (IH Hs). reflexivity.
Qed.

(** No part of a split holds the separator. *)
Lemma split_parts_no_sep (sep : ascii) (s : string) :
  Forall (λ part, Forall (λ c, c ≠ sep) (chars part)) (split sep s).
Proof.
  induction s as [|c s IH]; cbn [split].
  - repeat constructor.
  - destruct (Ascii.eqb_spec c sep) as [->|Hne].
    + constructor; [constructor | exact IH].
    + destruct (split sep s) as [|hd tl]; [repeat constructor; assumption|].
      inversion IH; subst. constructor; [|assumption].
      cbn [chars]. constructor; assumption.
Qed.

(** An envelope of three parts without colon splits into these parts. *)
Lemma split_envelope (a b c : string) :
  Forall (λ x, x ≠ ":"%char) (chars a) →
  Forall (λ x, x ≠ ":"%char) (chars b) →
  Forall (λ x, x ≠ ":"%char) (chars c) →
  split ":" (a +:+ ":" +:+ b +:+ ":" +:+ c) = [a; b; c].
Proof.
  intros Ha Hb Hc.
  change (a +:+ ":" +:+ b +:+ ":" +:+ c) with (a +:+ String ":" (b +:+ String ":" c)).
  rewrite (split_app _ _ _ Ha), (split_app _ _ _ Hb), (split_no_sep _ _ Hc).
  reflexivity.
Qed.

(* ====================================================================== *)
(** * JavaScript strings and UTF-8: the codec *)
(* ====================================================================== *)

(** Settling the comparisons of a goal from the bounds at hand. *)
Ltac decide_comparisons :=
  repeat match goal with
  | |- context [N.ltb ?a ?b] =>
      first [ replace (N.ltb a b) with true by (symmetry; apply N.ltb_lt; lia)
            | replace (N.ltb a b) with false by (symmetry; apply N.ltb_ge; lia) ]
  | |- context [N.leb ?a ?b] =>
      first [ replace (N.leb a b) with true by (symmetry; apply N.leb_le; lia)
            | replace (N.leb a b) with false by (symmetry; apply N.leb_gt; lia) ]
  end.

(** The digits of a number in base 64, as the encoder splits a code point. *)
Lemma digits_64 (n : N) :
  (n = n / 262144 * 262144 + (n / 4096) mod 64 * 4096 + (n / 64) mod 64 * 64 + n mod 64
   ∧ (n / 4096) mod 64 < 64 ∧ (n / 64) mod 64 < 64 ∧ n mod 64 < 64)%N.
Proof.
  pose proof (N.div_mod n 64 ltac:(discriminate)).
  pose proof (N.div_mod (n / 64) 64 ltac:(discriminate)).
  pose proof (N.div_mod (n / 64 / 64) 64 ltac:(discriminate)).
  replace (n / 4096)%N with (n / 64 / 64)%N by (rewrite N.Div0.div_div; reflexivity).
  replace (n / 262144)%N with (n / 64 / 64 / 64)%N
    by (rewrite !N.Div0.div_div; reflexivity).
  pose proof (N.mod_lt n 64 ltac:(discriminate)).
  pose proof (N.mod_lt (n / 64) 64 ltac:(discriminate)).
  pose proof (N.mod_lt (n / 64 / 64) 64 ltac:(discriminate)).
  repeat split; try assumption.
  generalize dependent (n mod 64)%N. generalize dependent ((n / 64) mod 64)%N.
  generalize dependent ((n / 64 / 64) mod 64)%N.
  generalize dependent (n / 64 / 64 / 64)%N. generalize dependent (n / 64 / 64)%N.
  generalize dependent (n / 64)%N. intros. lia.
Qed.

Lemma decode_bytes_cons (b0 : N) (r0 : list N) :
  Utf8.decode_bytes (b0 :: r0)
  = if (b0 <? 0x80)%N then b0 :: Utf8.decode_bytes r0
    else if Utf8.within 0xC2 0xDF b0 then Utf8.decode_2 Utf8.decode_bytes b0 r0
    else if Utf8.within 0xE0 0xEF b0 then Utf8.decode_3 Utf8.decode_bytes b0 r0
    else if Utf8.within 0xF0 0xF4 b0 then Utf8.decode_4 Utf8.decode_bytes b0 r0
    else 0xFFFD%N :: Utf8.decode_bytes r0.
Proof. reflexivity. Qed.

Lemma decode_bytes_1 (b0 : N) (rest : list N) :
  (b0 < 0x80)%N → Utf8.decode_bytes (b0 :: rest) = b0 :: Utf8.decode_bytes rest.
Proof. intros. rewrite decode_bytes_cons. decide_comparisons. reflexivity. Qed.

Lemma decode_bytes_2 (b0 b1 : N) (rest : list N) :
  (0xC2 ≤ b0 ≤ 0xDF)%N → (0x80 ≤ b1 ≤ 0xBF)%N →
  Utf8.decode_bytes (b0 :: b1 :: rest)
  = ((b0 - 0xC0) * 64 + (b1 - 0x80))%N :: Utf8.decode_bytes rest.
Proof.
  intros. rewrite decode_bytes_cons. unfold Utf8.decode_2, Utf8.within.
  decide_comparisons. reflexivity.
Qed.

Lemma decode_bytes_3 (b0 b1 b2 : N) (rest : list N) :
  (0xE0 ≤ b0 ≤ 0xEF)%N → (0x80 ≤ b1 ≤ 0xBF)%N → (0x80 ≤ b2 ≤ 0xBF)%N →
  (b0 = 0xE0 → 0xA0 ≤ b1)%N → (b0 = 0xED → b1 ≤ 0x9F)%N →
  Utf8.decode_bytes (b0 :: b1 :: b2 :: rest)
  = (((b0 - 0xE0) * 64 + (b1 - 0x80)) * 64 + (b2 - 0x80))%N :: Utf8.decode_bytes rest.
Proof.
  intros. rewrite decode_bytes_cons. unfold Utf8.decode_3, Utf8.within.
  destruct (N.eqb_spec b0 0xE0), (N.eqb_spec b0 0xED); try (exfalso; lia);
    decide_comparisons; reflexivity.
Qed.

Lemma decode_bytes_4 (b0 b1 b2 b3 : N) (rest : list N) :
  (0xF0 ≤ b0 ≤ 0xF4)%N → (0x80 ≤ b1 ≤ 0xBF)%N → (0x80 ≤ b2 ≤ 0xBF)%N →
  (0x80 ≤ b3 ≤ 0xBF)%N → (b0 = 0xF0 → 0x90 ≤ b1)%N → (b0 = 0xF4 → b1 ≤ 0x8F)%N →
  Utf8.decode_bytes (b0 :: b1 :: b2 :: b3 :: rest)
  = (Utf8.units_of_code_point
       ((((b0 - 0xF0) * 64 + (b1 - 0x80)) * 64 + (b2 - 0x80)) * 64 + (b3 - 0x80))
     ++ Utf8.decode_bytes rest)%list.
Proof.
  intros. rewrite decode_bytes_cons. unfold Utf8.decode_4, Utf8.within.
  destruct (N.eqb_spec b0 0xF0), (N.eqb_spec b0 0xF4); try (exfalso; lia);
    decide_comparisons; reflexivity.
Qed.

Ltac digits n :=
  destruct (digits_64 n) as (?Hn & ? & ? & ?);
  set (d0 := (n mod 64)%N) in *; set (d1 := ((n / 64) mod 64)%N) in *;
  set (d2 := ((n / 4096) mod 64)%N) in *; set (d3 := (n / 262144)%N) in *;
  clearbody d0 d1 d2 d3.

(** The decoder reads back the bytes the encoder writes for a scalar value. *)
Lemma decode_code_point (cp : N) (rest : list N) :
  (cp < 0xD800 ∨ 0xDFFF < cp)%N → (cp < 0x110000)%N →
  Utf8.decode_bytes (Utf8.encode_code_point cp ++ rest)
  = (Utf8.units_of_code_point cp ++ Utf8.decode_bytes rest)%list.
Proof.
  intros Hs Hmax. unfold Utf8.encode_code_point.
  assert (Hq1 : (cp < 0x800 → cp / 64 = (cp / 64) mod 64)%N).
  { intros. rewrite N.mod_small; [reflexivity | apply N.Div0.div_lt_upper_bound; lia]. }
  assert (Hq2 : (cp < 0x10000 → cp / 4096 = (cp / 4096) mod 64)%N).
  { intros. rewrite N.mod_small; [reflexivity | apply N.Div0.div_lt_upper_bound; lia]. }
  destruct (N.ltb_spec cp 0x80); [|destruct (N.ltb_spec cp 0x800); [|destruct (N.ltb_spec cp 0x10000)]];
  cbn [app].
  - rewrite decode_bytes_1 by assumption. unfold Utf8.units_of_code_point.
    decide_comparisons. reflexivity.
  - rewrite (Hq1 ltac:(assumption)). clear Hq1 Hq2. digits cp.
    rewrite decode_bytes_2 by lia. unfold Utf8.units_of_code_point.
    decide_comparisons. cbn [app]. f_equal. lia.
  - rewrite (Hq2 ltac:(assumption)). clear Hq1 Hq2. digits cp.
    rewrite decode_bytes_3 by lia. unfold Utf8.units_of_code_point.
    decide_comparisons. cbn [app]. f_equal. lia.
  - clear Hq1 Hq2. digits cp.
    rewrite decode_bytes_4 by lia. do 2 f_equal. lia.
Qed.

Lemma units_of_code_point_pair (u v : N) :
  Utf8.is_high u = true → Utf8.is_low v = true →
  Utf8.units_of_code_point (0x10000 + (u - 0xD800) * 1024 + (v - 0xDC00)) = [u; v].
Proof.
  unfold Utf8.is_high, Utf8.is_low, Utf8.units_of_code_point.
  intros [?%N.leb_le ?%N.leb_le]%andb_true_iff [?%N.leb_le ?%N.leb_le]%andb_true_iff.
  decide_comparisons.
  replace (0x10000 + (u - 0xD800) * 1024 + (v - 0xDC00) - 0x10000)%N
    with ((u - 0xD800) * 1024 + (v - 0xDC00))%N by lia.
  rewrite <- (N.div_unique _ 1024 (u - 0xD800) (v - 0xDC00)) by lia.
  rewrite <- (N.mod_unique _ 1024 (u - 0xD800) (v - 0xDC00)) by lia.
  f_equal; [lia | f_equal; lia].
Qed.

Lemma decode_replacement (rest : list N) :
  Utf8.decode_bytes (Utf8.replacement ++ rest) = 0xFFFD%N :: Utf8.decode_bytes rest.
Proof.
  unfold Utf8.replacement. cbn [app]. rewrite decode_bytes_3 by lia. reflexivity.
Qed.

(** Decoding the UTF-8 form of a string gives the string made well formed. *)
Lemma decode_encode_units (s : JSString) :
  Utf8.decode_bytes (Utf8.encode_units s) = Utf8.toWellFormed s.
Proof.
  remember (length s) as n eqn:Hn. revert s Hn.
  induction n as [n IH] using lt_wf_ind. intros [|u rest] Hn; [reflexivity|].
  assert (Hrest : Utf8.decode_bytes (Utf8.encode_units rest) = Utf8.toWellFormed rest).
  { apply (IH (length rest)); [cbn in Hn; lia | reflexivity]. }
  cbn [Utf8.encode_units Utf8.toWellFormed].
  destruct (Utf8.is_high u) eqn:Hh.
  - destruct rest as [|v rest']; [reflexivity|].
    destruct (Utf8.is_low v) eqn:Hl.
    + assert (Hh' := Hh). assert (Hl' := Hl). unfold Utf8.is_high, Utf8.is_low in Hh', Hl'.
      apply andb_true_iff in Hh' as [?%N.leb_le ?%N.leb_le].
      apply andb_true_iff in Hl' as [?%N.leb_le ?%N.leb_le].
      rewrite decode_code_point by lia.
      rewrite units_of_code_point_pair by assumption.
      cbn [app]. do 2 f_equal.
      apply (IH (length rest')); [cbn in Hn; lia | reflexivity].
    + rewrite decode_replacement, Hrest. reflexivity.
  - destruct (Utf8.is_low u) eqn:Hl; [rewrite decode_replacement, Hrest; reflexivity|].
    destruct (N.ltb_spec u 0x10000) as [Hu|Hu];
      [|rewrite decode_replacement, Hrest; reflexivity].
    unfold Utf8.is_high, Utf8.is_low in Hh, Hl.
    rewrite decode_code_point.
    + unfold Utf8.units_of_code_point. decide_comparisons. cbn [app]. f_equal. exact Hrest.
    + destruct (N.leb_spec 0xD800 u), (N.leb_spec u 0xDBFF), (N.leb_spec 0xDC00 u),
        (N.leb_spec u 0xDFFF); try discriminate; lia.
    + lia.
Qed.

(** A well-formed string is left as it is. *)
Lemma toWellFormed_well_formed (s : JSString) :
  Utf8.well_formed s = true → Utf8.toWellFormed s = s.
Proof.
  remember (length s) as n eqn:Hn. revert s Hn.
  induction n as [n IH] using lt_wf_ind. intros [|u rest] Hn Hwf; [reflexivity|].
  cbn [Utf8.well_formed Utf8.toWellFormed] in *.
  destruct (Utf8.is_high u).
  - destruct rest as [|v rest']; [discriminate|].
    apply andb_true_iff in Hwf as [Hl Hwf]. rewrite Hl. do 2 f_equal.
    apply (IH (length rest')); [cbn in Hn; lia | reflexivity | assumption].
  - apply andb_true_iff in Hwf as [[Hl Hu]%andb_true_iff Hwf].
    apply negb_true_iff in Hl. rewrite Hl, Hu. f_equal.
    apply (IH (length rest)); [cbn in Hn; lia | reflexivity | assumption].
Qed.

Lemma encode_code_point_bytes (cp : N) :
  (cp < 0x110000)%N → Forall (λ b, b < 256)%N (Utf8.encode_code_point cp).
Proof.
  intros. unfold Utf8.encode_code_point.
  assert (Hq1 : (cp < 0x800 → cp / 64 = (cp / 64) mod 64)%N).
  { intros. rewrite N.mod_small; [reflexivity | apply N.Div0.div_lt_upper_bound; lia]. }
  assert (Hq2 : (cp < 0x10000 → cp / 4096 = (cp / 4096) mod 64)%N).
  { intros. rewrite N.mod_small; [reflexivity | apply N.Div0.div_lt_upper_bound; lia]. }
  destruct (N.ltb_spec cp 0x80); [|destruct (N.ltb_spec cp 0x800); [|destruct (N.ltb_spec cp 0x10000)]].
  - repeat constructor. lia.
  - rewrite (Hq1 ltac:(assumption)). clear Hq1 Hq2. digits cp. repeat constructor; lia.
  - rewrite (Hq2 ltac:(assumption)). clear Hq1 Hq2. digits cp. repeat constructor; lia.
  - clear Hq1 Hq2. digits cp. repeat constructor; lia.
Qed.

Lemma encode_units_bytes (s : list N) : Forall (λ b, b < 256)%N (Utf8.encode_units s).
Proof.
  assert (Hr : Forall (λ b, b < 256)%N Utf8.replacement) by (repeat constructor; lia).
  remember (length s) as n eqn:Hn. revert s Hn.
  induction n as [n IH] using lt_wf_ind. intros [|u rest] Hn; [constructor|].
  cbn [Utf8.encode_units].
  assert (Hrest : Forall (λ b, b < 256)%N (Utf8.encode_units rest)).
  { apply (IH (length rest)); [cbn in Hn; lia | reflexivity]. }
  destruct (Utf8.is_high u) eqn:Hh.
  - destruct rest as [|v rest']; [assumption|].
    destruct (Utf8.is_low v) eqn:Hl.
    + apply Forall_app. split.
      * unfold Utf8.is_high, Utf8.is_low in Hh, Hl.
        apply andb_true_iff in Hh as [?%N.leb_le ?%N.leb_le].
        apply andb_true_iff in Hl as [?%N.leb_le ?%N.leb_le].
        apply encode_code_point_bytes. lia.
      * apply (IH (length rest')); [cbn in Hn; lia | reflexivity].
    + apply Forall_app. split; assumption.
  - destruct (Utf8.is_low u); [apply Forall_app; split; assumption|].
    destruct (N.ltb_spec u 0x10000); apply Forall_app; split; try assumption.
    apply encode_code_point_bytes. lia.
Qed.

(** Bytes below 0x80 are their own code units. *)
Lemma decode_bytes_ascii (bs : list N) :
  Forall (λ b, b < 0x80)%N bs → Utf8.decode_bytes bs = bs.
Proof.
  induction 1 as [|b bs Hb _ IH]; [reflexivity|]. rewrite decode_bytes_1 by assumption.
  f_equal. exact IH.
Qed.

Lemma N_of_byte_of_N (n : N) : (n < 256)%N → Buffer.N_of_byte (Buffer.byte_of_N n) = n.
Proof.
  intros H. unfold Buffer.N_of_byte, Buffer.byte_of_N.
  rewrite ascii_of_byte_of_ascii. apply N_ascii_embedding. exact H.
Qed.

Lemma N_of_byte_of_N_list (l : list N) :
  Forall (λ b, b < 256)%N l → Buffer.N_of_byte <$> (Buffer.byte_of_N <$> l) = l.
Proof.
  induction 1 as [|b l Hb _ IH]; [reflexivity|].
  cbn [fmap list_fmap]. rewrite (N_of_byte_of_N b Hb). f_equal. exact IH.
Qed.

(** What [toString('utf8')] makes of the UTF-8 encoding of a string: the
    string made well formed. *)
Lemma toString_utf8_from_string (s : JSString) :
  Buffer.toString_utf8 (Buffer.from_string s) = Utf8.toWellFormed s.
Proof.
  unfold Buffer.toString_utf8, Buffer.from_string.
  rewrite (N_of_byte_of_N_list _ (encode_units_bytes s)).
  apply decode_encode_units.
Qed.

(** A text of ASCII characters has one code unit per character. *)
Lemma code_units_ascii (s : string) :
  Forall (λ c, (N_of_ascii c < 0x80)%N) (chars s) →
  Buffer.code_units s = N_of_ascii <$> chars s.
Proof.
  intros H. unfold Buffer.code_units, Buffer.toString_utf8, Buffer.from_utf8.
  assert (Hb : Buffer.N_of_byte <$> list_byte_of_string s = N_of_ascii <$> chars s).
  { clear H. unfold list_byte_of_string. induction s as [|c s IH]; [reflexivity|].
    cbn [list_ascii_of_string map chars fmap list_fmap] in *. unfold Buffer.N_of_byte at 1.
    rewrite ascii_of_byte_of_ascii. f_equal. exact IH. }
  rewrite Hb. apply decode_bytes_ascii. apply Forall_fmap. exact H.
Qed.

(** The hexadecimal text of a buffer has an even length. *)
Lemma toString_hex_even (buf : list byte) :
  Nat.even (length (Buffer.code_units (Buffer.toString_hex buf))) = true.
Proof.
  rewrite code_units_ascii.
  - rewrite length_fmap.
    induction buf as [|b buf IH]; [reflexivity|].
    cbn [Buffer.toString_hex chars length]. exact IH.
  - eapply Forall_impl; [apply toString_hex_lower|].
    intros c Hc. unfold lower_hex in Hc. cbn zeta in Hc.
    apply orb_true_iff in Hc as [[_ H]%andb_true_iff | [_ H]%andb_true_iff];
      apply N.leb_le in H; lia.
Qed.

(* ====================================================================== *)
(** * The credential vault *)
(* ====================================================================== *)

Section VaultFacts.
Context {C : NodeCrypto} (env : Env).

(** [decrypt] on an envelope whose split starts with three parts: only these
    three are read. *)
Lemma decrypt_three_parts (s ivHex authTagHex encrypted : string) (rest : list string) :
  split ":" s = ivHex :: authTagHex :: encrypted :: rest →
  decrypt env s =
    (if gcm_iv_ok (Buffer.from_hex ivHex) then
       if gcm_tag_ok (Buffer.from_hex authTagHex) then
         if Nat.even (length (Buffer.code_units encrypted)) then
           match gcm_open (getKey env) (Buffer.from_hex ivHex)
                   (Buffer.from_hex authTagHex) (Buffer.from_hex encrypted) with
           | Some decrypted => Ok (Buffer.toString_utf8 decrypted)
           | None => Err AuthenticationFailed
           end
         else Err TypeError
       else Err InvalidAuthTag
     else Err InvalidIV).
Proof.
  intros Hs. unfold decrypt. rewrite Hs.
  cbn [lookup list_lookup Buffer.from Buffer.update_hex mbind result_bind].
  destruct (gcm_iv_ok _); [|reflexivity].
  destruct (gcm_tag_ok _); [|reflexivity].
  destruct (Nat.even _); reflexivity.
Qed.

(** The envelope [encrypt] builds, its split, and its decryption: the text
    as it reads back from its UTF-8 form. *)
Lemma vault_roundtrip (Hc : AEAD C) (iv : list byte) (text : JSString) :
  length iv = IV_LENGTH →
  let key := sha256 (Buffer.from_utf8 (ENCRYPTION_KEY env)) in
  let sealed := gcm_seal key iv (Buffer.from_string text) in
  let envelope :=
    Buffer.toString_hex iv +:+ ":" +:+ Buffer.toString_hex sealed.2
      +:+ ":" +:+ Buffer.toString_hex sealed.1 in
  encrypt env iv text = Ok envelope
  ∧ split ":" envelope
    = [Buffer.toString_hex iv; Buffer.toString_hex sealed.2; Buffer.toString_hex sealed.1]
  ∧ decrypt env envelope = Ok (Utf8.toWellFormed text).
Proof.
  intros Hiv key sealed envelope.
  pose proof (iv16_ok iv Hiv) as Hok.
  assert (Hsplit : split ":" envelope
    = [Buffer.toString_hex iv; Buffer.toString_hex sealed.2; Buffer.toString_hex sealed.1])
    by (apply split_envelope; apply toString_hex_no_colon).
  split; [|split].
  - unfold encrypt. rewrite Hok. reflexivity.
  - exact Hsplit.
  - rewrite (decrypt_three_parts _ _ _ _ _ Hsplit).
    rewrite toString_hex_even, !from_hex_toString_hex, Hok.
    subst sealed key. rewrite seal_tag_ok.
    unfold getKey. rewrite (open_seal _ _ _ Hok).
    rewrite toString_utf8_from_string. reflexivity.
Qed.

(** C6, as the code has it. For every plaintext and every 16-byte IV that
    [randomBytes] may return, [encrypt] produces the envelope
    hex(IV):hex(tag):hex(ciphertext) under the key SHA-256(ENCRYPTION_KEY),
    the envelope splits on the colon into exactly these three parts, and
    [decrypt] of the envelope, under the same key, is the plaintext made
    well formed: the plaintext itself when each of its surrogates is half of
    a pair, and otherwise the plaintext with U+FFFD for each surrogate that
    is not. *)
Theorem decrypt_encrypt (Hc : AEAD C) (iv : list byte) (text : JSString) :
  length iv = IV_LENGTH →
  let key := sha256 (Buffer.from_utf8 (ENCRYPTION_KEY env)) in
  let sealed := gcm_seal key iv (Buffer.from_string text) in
  let envelope :=
    Buffer.toString_hex iv +:+ ":" +:+ Buffer.toString_hex sealed.2
      +:+ ":" +:+ Buffer.toString_hex sealed.1 in
  encrypt env iv text = Ok envelope
  ∧ split ":" envelope
    = [Buffer.toString_hex iv; Buffer.toString_hex sealed.2; Buffer.toString_hex sealed.1]
  ∧ decrypt env envelope = Ok (Utf8.toWellFormed text)
  ∧ (Utf8.well_formed text = true → decrypt env envelope = Ok text).
Proof.
  intros Hiv key sealed envelope.
  destruct (vault_roundtrip Hc iv text Hiv) as (Henc & Hsplit & Hdec).
  repeat split; try assumption.
  intros Hwf. fold key sealed envelope in Hdec. rewrite Hdec.
  rewrite (toWellFormed_well_formed text Hwf). reflexivity.
Qed.

End VaultFacts.

Lemma bytes_eqb_refl (a : list byte) : Demo.bytes_eqb a a = true.
Proof.
  induction a as [|x a IH]; cbn [Demo.bytes_eqb]; [reflexivity|].
  rewrite IH, andb_true_r. apply byte_dec_lb. reflexivity.
Qed.

(** The stand-in primitives satisfy the laws asked of the cipher. *)
Lemma Demo_crypto_AEAD : AEAD Demo.crypto.
Proof.
  split.
  - intros iv Hiv. cbn. rewrite Hiv. reflexivity.
  - intros key iv pt. cbn. unfold Demo.tag_of.
    rewrite length_take, !length_app, length_replicate.
    apply Nat.eqb_eq. lia.
  - intros key iv pt _. cbn.
    rewrite bytes_eqb_refl, rev_involutive. reflexivity.
Qed.

Lemma decrypt_encrypt_witness :
  length Demo.iv = IV_LENGTH
  ∧ Utf8.well_formed (Buffer.code_units "[1]") = true
  ∧ @decrypt Demo.crypto Demo.env (Demo.blob "[1]") = Ok (Buffer.code_units "[1]").
Proof.
  split; [reflexivity|]. split; [reflexivity|].
  exact (proj2 (proj2 (proj2
    (@decrypt_encrypt Demo.crypto Demo.env Demo_crypto_AEAD Demo.iv
       (Buffer.code_units "[1]") eq_refl))) eq_refl).
Defined.

(** C6, as stated, fails: a string that holds an unpaired surrogate does not
    come back.  The string of the one code unit U+D800 is encrypted as the
    UTF-8 form of U+FFFD, and decrypts to the string of the one code unit
    U+FFFD, under any correct cipher. *)
Lemma decrypt_encrypt_lone_surrogate :
  ¬ (∀ (C : NodeCrypto), AEAD C → ∀ (env : Env) (iv : list byte) (text : JSString),
       length iv = IV_LENGTH →
       ∃ envelope, encrypt env iv text = Ok envelope ∧ decrypt env envelope = Ok text).
Proof.
  intros H.
  destruct (H Demo.crypto Demo_crypto_AEAD Demo.env Demo.iv [0xD800%N] eq_refl)
    as (envelope & Henc & Hdec).
  destruct (@vault_roundtrip Demo.crypto Demo.env Demo_crypto_AEAD Demo.iv [0xD800%N] eq_refl)
    as (Henc' & _ & Hdec').
  rewrite Henc' in Henc.
  pose proof (f_equal (λ r, match r with
                            | Ok e => @decrypt Demo.crypto Demo.env e
                            | Err _ => Err TypeError
                            end) Henc) as Hd.
  cbv beta iota in Hd. rewrite Hdec, Hdec' in Hd.
  discriminate Hd.
Qed.

Section EnvelopeShape.
Context {C : NodeCrypto} (env : Env).

(** C7, as the code has it. [decrypt] never counts the parts of the
    envelope and raises no error of its own.  A text without colon (one
    part) fails with the [TypeError] of [Buffer.from(undefined)]; a text
    with one colon (two parts) fails with the [TypeError] of
    [update(undefined)] or, before it, an argument error of the cipher,
    never with the authentication failure; a text with more than two colons
    is read as its first three parts, the others being ignored. *)
Theorem decrypt_part_count (s : string) :
  length (split ":" s) ≠ 0
  ∧ (length (split ":" s) = 1 → decrypt env s = Err TypeError)
  ∧ (length (split ":" s) = 2 →
       ∃ e, decrypt env s = Err e ∧ (e = InvalidIV ∨ e = InvalidAuthTag ∨ e = TypeError))
  ∧ (∀ a b c rest, split ":" s = a :: b :: c :: rest →
       decrypt env s = decrypt env (a +:+ ":" +:+ b +:+ ":" +:+ c)).
Proof.
  split; [|split; [|split]].
  - pose proof (split_nonempty ":" s) as Hne.
    destruct (split ":" s); [contradiction | discriminate].
  - intros Hlen. unfold decrypt.
    destruct (split ":" s) as [|a [|b l]]; try discriminate Hlen. reflexivity.
  - intros Hlen. unfold decrypt.
    destruct (split ":" s) as [|a [|b [|c l]]]; try discriminate Hlen. cbn.
    destruct (gcm_iv_ok _); [|eauto].
    destruct (gcm_tag_ok _); eauto.
  - intros a b c rest Hs.
    pose proof (split_parts_no_sep ":" s) as Hparts. rewrite Hs in Hparts.
    inversion Hparts as [|? ? Ha Hparts1]; subst.
    inversion Hparts1 as [|? ? Hb Hparts2]; subst.
    inversion Hparts2 as [|? ? Hc _]; subst.
    rewrite (decrypt_three_parts env _ _ _ _ _ Hs).
    rewrite (decrypt_three_parts env _ _ _ _ _ (split_envelope a b c Ha Hb Hc)).
    reflexivity.
Qed.

End EnvelopeShape.

Lemma decrypt_part_count_witness :
  @decrypt Demo.crypto Demo.env "00ff" = Err TypeError
  ∧ @decrypt Demo.crypto Demo.env (Demo.blob "[1]" +:+ ":00:00")
    = @decrypt Demo.crypto Demo.env (Demo.blob "[1]").
Proof.
  split.
  - exact (proj1 (proj2 (@decrypt_part_count Demo.crypto Demo.env "00ff")) eq_refl).
  - exact (proj2 (proj2 (proj2 (@decrypt_part_count Demo.crypto Demo.env
             (Demo.blob "[1]" +:+ ":00:00"))))
             _ _ _ ["00"; "00"] eq_refl).
Defined.

(** C7, as stated, fails: a correct cipher does not make [decrypt] reject a
    text of four parts.  The envelope of a plaintext followed by [:00] has
    three colons and decrypts to the plaintext. *)
Lemma decrypt_four_parts_accepted :
  ¬ (∀ (C : NodeCrypto), AEAD C → ∀ (env : Env) (s : string),
       length (split ":" s) ≠ 3 → ∃ e, decrypt env s = Err e).
Proof.
  intros H.
  destruct (H Demo.crypto Demo_crypto_AEAD Demo.env (Demo.blob "[1]" +:+ ":00"))
    as [e He].
  - vm_compute. discriminate.
  - vm_compute in He. discriminate He.
Qed.

(* ====================================================================== *)
(** * The retry delay *)
(* ====================================================================== *)

Lemma Qmin_inject_Z (x y : Z) :
  Qmin (inject_Z x) (inject_Z y) == inject_Z (Z.min x y).
Proof.
  destruct (Z.le_ge_cases x y) as [H|H].
  - rewrite (Z.min_l _ _ H). apply Q.min_l. rewrite <- Zle_Qle. exact H.
  - rewrite (Z.min_r _ _ H). apply Q.min_r. rewrite <- Zle_Qle. exact H.
Qed.

(** From the first attempt on the delay is a whole number of milliseconds. *)
Lemma getRetryDelay_integer (attempt : Z) :
  (1 ≤ attempt)%Z →
  getRetryDelay attempt == inject_Z (Z.min (60000 * 2 ^ (attempt - 1)) 86400000).
Proof.
  intros H. unfold getRetryDelay.
  rewrite <- Qmin_inject_Z, inject_Z_mult.
  rewrite (Zpower_Qpower 2 (attempt - 1)) by lia.
  reflexivity.
Qed.

Lemma new_Date_of_inject_Z (x : Q) (z : Z) : x == inject_Z z → new_Date_of x = z.
Proof.
  intros H. unfold new_Date_of.
  rewrite (Qfloor_comp _ _ H), (Qceiling_comp _ _ H), Qfloor_Z, Qceiling_Z.
  destruct (Qle_bool 0 x); reflexivity.
Qed.

(** The date of the next retry, from the first attempt on. *)
Lemma retryDate_integer (now attempt : Z) :
  (1 ≤ attempt)%Z →
  retryDate now attempt = (now + Z.min (60000 * 2 ^ (attempt - 1)) 86400000)%Z.
Proof.
  intros H. unfold retryDate. apply new_Date_of_inject_Z.
  rewrite (getRetryDelay_integer _ H), <- inject_Z_plus. reflexivity.
Qed.

(** The delay doubles up to the eleventh attempt and is the cap afterwards. *)
Lemma backoff_clamp (attempt : Z) :
  (1 ≤ attempt)%Z →
  Z.min (60000 * 2 ^ (attempt - 1)) 86400000
  = (if (attempt <=? 11)%Z then 60000 * 2 ^ (attempt - 1) else 86400000)%Z.
Proof.
  intros H. destruct (Z.leb_spec attempt 11) as [Hle|Hgt].
  - apply Z.min_l.
    assert (2 ^ (attempt - 1) ≤ 2 ^ 10)%Z by (apply Z.pow_le_mono_r; lia).
    change (2 ^ 10)%Z with 1024%Z in *. lia.
  - apply Z.min_r.
    assert (2 ^ 11 ≤ 2 ^ (attempt - 1))%Z by (apply Z.pow_le_mono_r; lia).
    change (2 ^ 11)%Z with 2048%Z in *. lia.
Qed.

(** C4. For every attempt from 1 on, [getRetryDelay] is
    min(60000 * 2^(attempt-1), 86400000) milliseconds, a function of the
    attempt alone; it is 60000 at attempt 1, 960000 at attempt 5 and the cap
    86400000 at attempt 30. *)
Theorem getRetryDelay_backoff (attempt : Z) :
  (1 ≤ attempt)%Z →
  getRetryDelay attempt == inject_Z (Z.min (60000 * 2 ^ (attempt - 1)) 86400000)
  ∧ getRetryDelay 1 == 60000
  ∧ getRetryDelay 5 == 960000
  ∧ getRetryDelay 30 == 86400000.
Proof.
  intros H. split; [exact (getRetryDelay_integer attempt H)|].
  repeat split; reflexivity.
Qed.

Lemma getRetryDelay_backoff_witness :
  (1 ≤ 12)%Z ∧ getRetryDelay 12 == 86400000.
Proof.
  split; [lia|].
  exact (proj1 (getRetryDelay_backoff 12 ltac:(lia))).
Defined.

(* ====================================================================== *)
(** * Get Processor Config *)
(* ====================================================================== *)

Lemma find_first_match {A : Type} (P : A → bool) (pre post : list A) (r : A) :
  Forall (λ x, P x = false) pre → P r = true →
  List.find P (pre ++ r :: post)%list = Some r.
Proof.
  intros Hpre Hr. induction Hpre as [|x pre Hx _ IH]; cbn.
  - rewrite Hr. reflexivity.
  - rewrite Hx. exact IH.
Qed.

Lemma find_map_preserving {A : Type} (P : A → bool) (g : A → A) (l : list A) :
  (∀ x, P (g x) = P x) →
  List.find P (map g l) = g <$> List.find P l.
Proof.
  intros Hg. induction l as [|x l IH]; cbn; [reflexivity|].
  rewrite Hg. destruct (P x); [reflexivity | exact IH].
Qed.

Section ConfigLookup.
Context {C : NodeCrypto} {J : NodeJSON} (env : Env).

Lemma getProcessorConfig_find (m p : string) (db : Store) :
  getProcessorConfig env m p db =
    match List.find (λ r, bool_decide (pc_merchantId r = m) && bool_decide (pc_processor r = p))
            (processorConfigs db) with
    | Some r => config_of_row env m p r
    | None => Ok None
    end.
Proof.
  unfold getProcessorConfig, select_processorConfigs.
  destruct (List.find _ _); reflexivity.
Qed.

(** C10. When the scan of [processor_configs] meets the row [r] as the
    first one of the requested merchant and processor, [getProcessorConfig]
    answers from [r]: with the credentials [r] holds, decrypted and parsed,
    whatever the [enabled] flag and the [priority] of [r] are.  The
    credentials [r] holds are those of the text [encrypt] was given, made
    well formed, which is the text itself when it is well formed.  Rewriting
    the two columns in every row of the table changes no answer, and rows
    after [r] are not looked at. *)
Theorem getProcessorConfig_first_match
    (m p : string) (db : Store) (pre post : list ProcessorConfig) (r : ProcessorConfig) :
  processorConfigs db = (pre ++ r :: post)%list →
  Forall (λ x, ¬ (pc_merchantId x = m ∧ pc_processor x = p)) pre →
  pc_merchantId r = m → pc_processor r = p →
  getProcessorConfig env m p db = config_of_row env m p r
  ∧ (∀ iv text creds, AEAD C → length iv = IV_LENGTH →
       encrypt env iv text = Ok (pc_credentialsEncrypted r) →
       JSON_parse (Utf8.toWellFormed text) = Some creds →
       getProcessorConfig env m p db
       = Ok (Some {| merchantId := m; processor := p;
                     testMode := pc_testMode r; credentials := creds |}))
  ∧ (∀ iv text creds, AEAD C → length iv = IV_LENGTH →
       Utf8.well_formed text = true →
       encrypt env iv text = Ok (pc_credentialsEncrypted r) →
       JSON_parse text = Some creds →
       getProcessorConfig env m p db
       = Ok (Some {| merchantId := m; processor := p;
                     testMode := pc_testMode r; credentials := creds |}))
  ∧ (∀ (f : ProcessorConfig → Z * bool),
       getProcessorConfig env m p
         (with_processorConfigs
            (map (λ x, with_priority_enabled (f x).1 (f x).2 x) (processorConfigs db)) db)
       = getProcessorConfig env m p db)
  ∧ (∀ post', getProcessorConfig env m p (with_processorConfigs (pre ++ r :: post')%list db)
              = getProcessorConfig env m p db).
Proof.
  intros Hrows Hpre Hm Hp.
  set (P := λ x : ProcessorConfig,
         bool_decide (pc_merchantId x = m) && bool_decide (pc_processor x = p)).
  assert (HP : Forall (λ x, P x = false) pre).
  { eapply Forall_impl; [exact Hpre|]. intros x Hx. unfold P.
    destruct (bool_decide_reflect (pc_merchantId x = m)); [|reflexivity].
    destruct (bool_decide_reflect (pc_processor x = p)); [|reflexivity].
    exfalso. apply Hx. split; assumption. }
  assert (Hr : P r = true).
  { unfold P. rewrite !bool_decide_eq_true_2 by assumption. reflexivity. }
  assert (Hfirst : getProcessorConfig env m p db = config_of_row env m p r).
  { rewrite getProcessorConfig_find, Hrows.
    fold P. rewrite (find_first_match P pre post r HP Hr). reflexivity. }
  assert (Hread : ∀ iv text creds, AEAD C → length iv = IV_LENGTH →
            encrypt env iv text = Ok (pc_credentialsEncrypted r) →
            JSON_parse (Utf8.toWellFormed text) = Some creds →
            getProcessorConfig env m p db
            = Ok (Some {| merchantId := m; processor := p;
                          testMode := pc_testMode r; credentials := creds |})).
  { intros iv text creds Hc Hiv Henc Hparse.
    rewrite Hfirst. unfold config_of_row.
    destruct (vault_roundtrip env Hc iv text Hiv) as (Henc' & _ & Hdec).
    rewrite Henc' in Henc. injection Henc as Henc. rewrite <- Henc, Hdec.
    cbn. rewrite Hparse. reflexivity. }
  split; [exact Hfirst|]. split; [exact Hread|]. split; [|split].
  - intros iv text creds Hc Hiv Hwf Henc Hparse.
    apply (Hread iv text creds Hc Hiv Henc).
    rewrite (toWellFormed_well_formed text Hwf). exact Hparse.
  - intros f. rewrite !getProcessorConfig_find. cbn [processorConfigs with_processorConfigs].
    fold P. rewrite (find_map_preserving P) by reflexivity.
    destruct (List.find P (processorConfigs db)); reflexivity.
  - intros post'. rewrite Hfirst, getProcessorConfig_find.
    cbn [processorConfigs with_processorConfigs]. fold P.
    rewrite (find_first_match P pre post' r HP Hr). reflexivity.
Qed.

End ConfigLookup.

Lemma getProcessorConfig_first_match_witness :
  pc_enabled (Demo.config "c-1" (Demo.blob "[1]") 9 false) = false
  ∧ @getProcessorConfig Demo.crypto Demo.json Demo.env "m-1" "stripe" Demo.store
    = Ok (Some {| merchantId := "m-1"; processor := "stripe";
                  testMode := true; credentials := Demo.text "[1]" |}).
Proof.
  split; [reflexivity|].
  exact (proj1 (@getProcessorConfig_first_match Demo.crypto Demo.json Demo.env
           "m-1" "stripe" Demo.store []
           [Demo.config "c-2" (Demo.blob "[2]") 1 true]
           (Demo.config "c-1" (Demo.blob "[1]") 9 false)
           eq_refl (List.Forall_nil _) eq_refl eq_refl)).
Defined.

(* ====================================================================== *)
(** * Update Order Status *)
(* ====================================================================== *)

(** An update of a primary key the table does not hold changes no row. *)
Lemma alter_absent {A : Type} (f : A → A) (id : string) (m : gmap string A) :
  m !! id = None → alter f id m = m.
Proof.
  intros H. apply map_eq. intros j. rewrite lookup_alter.
  destruct (decide (id = j)) as [<-|_]; [rewrite H|]; reflexivity.
Qed.

(** Running the state monad: its operations are unfolded and the pairs they
    build are reduced. *)
Ltac run_M :=
  repeat progress
    (unfold mbind, M_bind, mret, M_ret, new_Date, Date_now, tick, query, exec, fetch;
     cbn beta iota zeta delta [fst snd db ticks sent]).

Section Ledger.
Context {J : NodeJSON} (w : World).

Lemma update_orders_absent (v : OrderSet) (id : string) (db : Store) :
  orders db !! id = None → update_orders v id db = db.
Proof.
  intros H. unfold update_orders. rewrite (alter_absent _ _ _ H).
  destruct db; reflexivity.
Qed.

(** The state [updateOrderStatus] leaves, by the test on the transaction id
    and the row the order id reaches. *)
Lemma updateOrderStatus_run (input : UpdateOrderStatusInput) (s : State) :
  updateOrderStatus w input s =
    let v := {| set_o_status := Some (status input);
                set_o_processorOrderId := or_undefined (processorOrderId input);
                set_o_updatedAt := Some (clock w (ticks s)) |} in
    let db1 := update_orders v (orderId input) (db s) in
    match (if truthy (processorTransactionId input)
           then orders db1 !! orderId input else None) with
    | Some order0 =>
        ((), {| db := insert_transactions
                        {| t_id := random_uuid w (S (ticks s));
                           t_orderId := orderId input;
                           t_type := if String.eqb (status input) "captured" then "capture"
                                     else if String.eqb (status input) "authorized"
                                          then "authorization"
                                          else "authorization";
                           t_amount := o_amount order0;
                           t_status := if String.eqb (status input) "failed"
                                       then "failed" else "success";
                           t_processorTransactionId := processorTransactionId input;
                           t_processorResponse := None;
                           t_errorCode := None;
                           t_errorMessage := None;
                           t_createdAt := store_now w (S (ticks s)) |} db1;
                 ticks := S (S (ticks s));
                 sent := sent s |})
    | None => ((), {| db := db1; ticks := S (ticks s); sent := sent s |})
    end.
Proof.
  unfold updateOrderStatus. run_M.
  destruct (truthy (processorTransactionId input)); [|reflexivity].
  run_M. destruct (orders _ !! _); reflexivity.
Qed.

(** C8, as the code has it. For an order the store holds and a call whose
    processor transaction id is a non-empty string, exactly one row is
    appended to [transactions]: its amount is the amount of the order as
    re-read after the update, which is the amount the order had; its type is
    [capture] for the status [captured] and [authorization] for any other
    status; its status is [failed] exactly for the status [failed], and
    [success] otherwise.  Without a transaction id, and for the empty
    string, no row is appended. *)
Theorem updateOrderStatus_appends_transaction
    (input : UpdateOrderStatusInput) (s : State) (o : Order) :
  orders (db s) !! orderId input = Some o →
  (∀ txn : string, processorTransactionId input = Some txn → txn ≠ EmptyString →
     ∃ (row : Transaction) (o' : Order),
       transactions (db (state_after (updateOrderStatus w input) s))
         = (transactions (db s) ++ [row])%list
       ∧ orders (db (state_after (updateOrderStatus w input) s)) !! orderId input
         = Some o'
       ∧ o_status o' = status input
       ∧ o_amount o' = o_amount o
       ∧ t_amount row = o_amount o'
       ∧ t_orderId row = orderId input
       ∧ t_processorTransactionId row = Some txn
       ∧ t_type row = (if String.eqb (status input) "captured"
                       then "capture" else "authorization")
       ∧ (t_status row = "failed" ↔ status input = "failed")
       ∧ (status input ≠ "failed" → t_status row = "success"))
  ∧ (processorTransactionId input = None
     ∨ processorTransactionId input = Some EmptyString →
     transactions (db (state_after (updateOrderStatus w input) s))
       = transactions (db s)).
Proof.
  intros Ho. unfold state_after. rewrite updateOrderStatus_run. cbn zeta.
  set (v := {| set_o_status := Some (status input);
               set_o_processorOrderId := or_undefined (processorOrderId input);
               set_o_updatedAt := Some (clock w (ticks s)) |}).
  assert (Hre : orders (update_orders v (orderId input) (db s)) !! orderId input
                = Some (set_order v o)).
  { unfold update_orders. cbn [orders]. rewrite lookup_alter_eq, Ho. reflexivity. }
  split.
  - intros txn Htxn Hne. rewrite Htxn.
    destruct txn as [|c txn]; [contradiction|]. cbn [truthy].
    rewrite Hre. cbn [snd db].
    eexists _, (set_order v o). split; [reflexivity|]. split; [exact Hre|].
    repeat split; try reflexivity; cbn [t_type t_status].
    + destruct (String.eqb (status input) "captured"); [reflexivity|].
      destruct (String.eqb (status input) "authorized"); reflexivity.
    + destruct (String.eqb_spec (status input) "failed"); [trivial | discriminate].
    + intros ->. reflexivity.
    + intros Hne'. destruct (String.eqb_spec (status input) "failed");
        [contradiction | reflexivity].
  - intros [Hnone|Hempty]; [rewrite Hnone | rewrite Hempty]; reflexivity.
Qed.

(** On its own, [updateOrderStatus] changes nothing in a store that holds no
    row under the order id. *)
Lemma updateOrderStatus_absent (input : UpdateOrderStatusInput) (s : State) :
  orders (db s) !! orderId input = None →
  db (state_after (updateOrderStatus w input) s) = db s.
Proof.
  intros Ho. unfold state_after. rewrite updateOrderStatus_run. cbn zeta.
  rewrite (update_orders_absent _ _ _ Ho), Ho.
  destruct (truthy (processorTransactionId input)); reflexivity.
Qed.

(** An invocation, by what the store makes of the text of the order id. *)
Lemma invoke_updateOrderStatus_run (input : UpdateOrderStatusInput) (s : State) :
  invoke_updateOrderStatus w input s =
    match Uuid.input (orderId input) with
    | Some id =>
        (inr (),
         state_after
           (updateOrderStatus w
              {| orderId := id;
                 status := status input;
                 processorOrderId := processorOrderId input;
                 processorTransactionId := processorTransactionId input |}) s)
    | None =>
        (inl InvalidTextRepresentation,
         {| db := db s; ticks := S (ticks s); sent := sent s |})
    end.
Proof.
  unfold invoke_updateOrderStatus, state_after.
  destruct (Uuid.input (orderId input)) as [id|]; [|reflexivity].
  unfold mbind, M_bind, mret, M_ret.
  destruct (updateOrderStatus w _ s) as [[] s']. reflexivity.
Qed.


End Ledger.

Lemma updateOrderStatus_appends_transaction_witness :
  transactions (db (state_after
    (@updateOrderStatus Demo.json Demo.world (Demo.update "o-1" "captured" (Some "pi_1")))
    Demo.state)) ≠ [].
Proof.
  destruct (proj1 (@updateOrderStatus_appends_transaction Demo.json Demo.world
                     (Demo.update "o-1" "captured" (Some "pi_1")) Demo.state Demo.order
                     eq_refl) "pi_1" eq_refl ltac:(discriminate))
    as (row & o' & Htx & _).
  rewrite Htx. discriminate.
Defined.



(* ====================================================================== *)
(** * Deliver Webhook *)
(* ====================================================================== *)

Lemma or_0_Some (n : Z) : or_0 (Some n) = n.
Proof. unfold or_0. destruct (Z.eqb_spec n 0) as [->|_]; reflexivity. Qed.

Section Dispatcher.
Context {C : NodeCrypto} {J : NodeJSON} (w : World).

(** An invocation whose request is answered. *)
Lemma deliverWebhook_response (input : WebhookDeliveryInput) (s : State) (code : Z) :
  remote w (S (ticks s)) (request_of w input s) = Response code →
  deliverWebhook w input s =
    if ok code then
      ({| success := true;
          statusCode := Some code;
          attempts := attempt_of input s;
          deliveredAt := Some (clock w (S (S (S (S (ticks s))))));
          errorMessage := None |},
       {| db := update_webhookEvents
                  {| set_we_status := Some "delivered";
                     set_we_attempts := Some (attempt_of input s);
                     set_we_lastAttemptAt := Some (clock w (S (S (ticks s))));
                     set_we_deliveredAt := Some (clock w (S (S (S (ticks s)))));
                     set_we_nextRetryAt := None |}
                  (webhookEventId input) (db s);
          ticks := S (S (S (S (S (ticks s)))));
          sent := (sent s ++ [request_of w input s])%list |})
    else
      ({| success := false;
          statusCode := Some code;
          attempts := attempt_of input s;
          deliveredAt := None;
          errorMessage := Some ("HTTP " +:+ String_of_number code) |},
       {| db := update_webhookEvents
                  {| set_we_status := Some "pending";
                     set_we_attempts := Some (attempt_of input s);
                     set_we_lastAttemptAt := Some (clock w (S (S (ticks s))));
                     set_we_deliveredAt := None;
                     set_we_nextRetryAt :=
                       Some (retryDate (clock w (S (S (S (ticks s)))))
                               (attempt_of input s)) |}
                  (webhookEventId input) (db s);
          ticks := S (S (S (S (ticks s))));
          sent := (sent s ++ [request_of w input s])%list |}).
Proof.
  intros Hres. unfold request_of in Hres.
  unfold deliverWebhook, attempt_of, request_of. run_M. rewrite Hres.
  destruct (ok code); run_M; reflexivity.
Qed.

(** An invocation whose request throws. *)
Lemma deliverWebhook_throws (input : WebhookDeliveryInput) (s : State) (e : Thrown) :
  remote w (S (ticks s)) (request_of w input s) = Throws e →
  deliverWebhook w input s =
    ({| success := false;
        statusCode := None;
        attempts := attempt_of input s;
        deliveredAt := None;
        errorMessage := Some match e with
                             | ErrorObject message => message
                             | OtherValue => "Unknown error"
                             end |},
     {| db := update_webhookEvents
                {| set_we_status :=
                     Some (if (5 <=? attempt_of input s)%Z then "failed" else "pending");
                   set_we_attempts := Some (attempt_of input s);
                   set_we_lastAttemptAt := Some (clock w (S (S (ticks s))));
                   set_we_deliveredAt := None;
                   set_we_nextRetryAt :=
                     if (5 <=? attempt_of input s)%Z then None
                     else Some (retryDate (clock w (S (S (S (ticks s)))))
                                  (attempt_of input s)) |}
                (webhookEventId input) (db s);
        ticks := if (5 <=? attempt_of input s)%Z then S (S (S (ticks s)))
                 else S (S (S (S (ticks s))));
        sent := (sent s ++ [request_of w input s])%list |}).
Proof.
  intros Hres. unfold request_of in Hres.
  unfold deliverWebhook, attempt_of, request_of. run_M. rewrite Hres.
  destruct (5 <=? _)%Z; run_M; reflexivity.
Qed.

(** The row of the event after the update of an invocation. *)
Lemma update_webhookEvents_lookup (v : WebhookEventSet) (id : string) (db : Store)
    (ev : WebhookEvent) :
  webhookEvents db !! id = Some ev →
  webhookEvents (update_webhookEvents v id db) !! id = Some (set_webhookEvent v ev).
Proof.
  intros H. unfold update_webhookEvents. cbn [webhookEvents].
  rewrite lookup_alter_eq, H. reflexivity.
Qed.

Lemma update_webhookEvents_absent (v : WebhookEventSet) (id : string) (db : Store) :
  webhookEvents db !! id = None → update_webhookEvents v id db = db.
Proof.
  intros H. unfold update_webhookEvents. rewrite (alter_absent _ _ _ H).
  destruct db; reflexivity.
Qed.

Lemma attempt_of_event (input : WebhookDeliveryInput) (s : State) (ev : WebhookEvent) :
  webhookEvents (db s) !! webhookEventId input = Some ev →
  attempt_of input s = (we_attempts ev + 1)%Z.
Proof.
  intros H. unfold attempt_of. rewrite H.
  change (we_attempts <$> Some ev) with (Some (we_attempts ev)).
  rewrite or_0_Some. reflexivity.
Qed.

End Dispatcher.

Section Delivery.
Context {C : NodeCrypto} {J : NodeJSON} (w : World).




End Delivery.

Section Signing.
Context {C : NodeCrypto} {J : NodeJSON} (w : World).

(** The timestamp header holds the reading of the clock, in decimal. *)
Lemma signedRequest_timestamp (input : WebhookDeliveryInput) (now : Z) :
  req_headers (signedRequest input now) !! "X-Loop-Timestamp" = Some (String_of_number now).
Proof.
  unfold signedRequest. cbn [req_headers].
  destruct (truthy (webhookSecret input)).
  - rewrite lookup_insert_ne by discriminate. apply lookup_insert_eq.
  - apply lookup_insert_eq.
Qed.

(** The signature header, by the test on the secret. *)
Lemma signedRequest_signature (input : WebhookDeliveryInput) (now : Z) :
  req_headers (signedRequest input now) !! "X-Loop-Signature" =
    if truthy (webhookSecret input) then
      Some ("v1=" +:+ Buffer.toString_hex
              (hmac_sha256 (Buffer.from_utf8 (default EmptyString (webhookSecret input)))
                 (Buffer.from_utf8
                    (String_of_number now +:+ "." +:+ JSON_stringify (payload input)))))
    else None.
Proof.
  unfold signedRequest. cbn [req_headers].
  destruct (truthy (webhookSecret input)).
  - rewrite lookup_insert_eq. rewrite lookup_insert_eq. reflexivity.
  - rewrite !lookup_insert_ne by discriminate. apply lookup_empty.
Qed.

(** Every invocation sends exactly one request. *)
Lemma deliverWebhook_sent (input : WebhookDeliveryInput) (s : State) :
  sent (state_after (deliverWebhook w input) s) = (sent s ++ [request_of w input s])%list.
Proof.
  unfold state_after.
  destruct (remote w (S (ticks s)) (request_of w input s)) as [code|e] eqn:Hres.
  - rewrite (deliverWebhook_response w input s code Hres).
    destruct (ok code); reflexivity.
  - rewrite (deliverWebhook_throws w input s e Hres). reflexivity.
Qed.

(** C5, as the code has it. The one request an invocation sends has the
    serialized payload as body and the reading of the clock as timestamp
    header.  With a non-empty secret it carries the signature header [v1=]
    followed by the lowercase hexadecimal HMAC-SHA256, keyed by the secret,
    of the timestamp header, a dot and the body; without a secret, and for
    the empty secret, it has no signature header. *)
Theorem deliverWebhook_signature (input : WebhookDeliveryInput) (s : State) :
  let req := request_of w input s in
  let timestamp := String_of_number (clock w (ticks s)) in
  let body := JSON_stringify (payload input) in
  sent (state_after (deliverWebhook w input) s) = (sent s ++ [req])%list
  ∧ req_body req = body
  ∧ req_headers req !! "X-Loop-Timestamp" = Some timestamp
  ∧ (∀ secret : string, webhookSecret input = Some secret → secret ≠ EmptyString →
       let signature :=
         Buffer.toString_hex
           (hmac_sha256 (Buffer.from_utf8 secret)
              (Buffer.from_utf8 (timestamp +:+ "." +:+ body))) in
       req_headers req !! "X-Loop-Signature" = Some ("v1=" +:+ signature)
       ∧ Forall (λ c, lower_hex c = true) (chars signature))
  ∧ (webhookSecret input = None → req_headers req !! "X-Loop-Signature" = None)
  ∧ (webhookSecret input = Some EmptyString →
       req_headers req !! "X-Loop-Signature" = None).
Proof.
  intros req timestamp body. subst req. unfold request_of.
  split; [apply deliverWebhook_sent|]. split; [reflexivity|].
  split; [apply signedRequest_timestamp|].
  rewrite signedRequest_signature. split; [|split].
  - intros secret Hs Hne. cbn zeta. rewrite Hs.
    destruct secret as [|c secret]; [contradiction|]. cbn [truthy default].
    split; [reflexivity | apply toString_hex_lower].
  - intros ->. reflexivity.
  - intros ->. reflexivity.
Qed.

End Signing.

(* ====================================================================== *)
(** * Examples *)
(* ====================================================================== *)

Section Examples.
#[local] Existing Instance Demo.crypto.
#[local] Existing Instance Demo.json.

Lemma deliverWebhook_signature_witness :
  req_headers (@request_of Demo.crypto Demo.json Demo.world
                 (Demo.delivery (Some "k")) Demo.state) !! "X-Loop-Signature"
  = Some "v1=6b313730303030303030303030302e7b7d000000000000000000000000000000".
Proof.
  exact (proj1 (proj1 (proj2 (proj2 (proj2
    (@deliverWebhook_signature Demo.crypto Demo.json Demo.world
       (Demo.delivery (Some "k")) Demo.state)))) "k" eq_refl ltac:(discriminate))).
Defined.






(** C5, as stated, fails for the one secret the code's test takes for no
    secret: with the empty string given as [webhookSecret] the request
    carries no signature header. *)
Lemma deliverWebhook_empty_secret_unsigned :
  webhookSecret (Demo.delivery (Some EmptyString)) = Some EmptyString
  ∧ sent (Demo.deliver Demo.world (Some EmptyString) Demo.state).2
    = [request_of Demo.world (Demo.delivery (Some EmptyString)) Demo.state]
  ∧ req_headers (request_of Demo.world (Demo.delivery (Some EmptyString)) Demo.state)
      !! "X-Loop-Signature" = None.
Proof. vm_compute. repeat split. Qed.

(** C8, as stated, fails for the one transaction id the code's test takes
    for no id: with the empty string given as [processorTransactionId] the
    order is updated and no transaction is appended. *)
Lemma updateOrderStatus_empty_transaction_id :
  processorTransactionId (Demo.update "o-1" "captured" (Some EmptyString))
    = Some EmptyString
  ∧ o_status <$> (orders (db Demo.state) !! "o-1") = Some "pending"
  ∧ o_status <$> (orders (db (state_after
        (updateOrderStatus Demo.world (Demo.update "o-1" "captured" (Some EmptyString)))
        Demo.state)) !! "o-1") = Some "captured"
  ∧ transactions (db (state_after
        (updateOrderStatus Demo.world (Demo.update "o-1" "captured" (Some EmptyString)))
        Demo.state)) = [].
Proof. vm_compute. repeat split. Qed.

End Examples.

(* ====================================================================== *)
(** * Further properties: the retry delay *)
(* ====================================================================== *)

Lemma backoff_bounds (a b : Z) :
  (1 ≤ a)%Z → (a ≤ b)%Z →
  (60000 ≤ Z.min (60000 * 2 ^ (a - 1)) 86400000
   ∧ Z.min (60000 * 2 ^ (a - 1)) 86400000 ≤ Z.min (60000 * 2 ^ (b - 1)) 86400000
   ∧ Z.min (60000 * 2 ^ (b - 1)) 86400000 ≤ 86400000)%Z.
Proof.
  intros Ha Hab.
  assert (1 ≤ 2 ^ (a - 1))%Z by (apply Z.pow_le_mono_r with (b := 0%Z) (c := (a - 1)%Z); lia).
  assert (2 ^ (a - 1) ≤ 2 ^ (b - 1))%Z by (apply Z.pow_le_mono_r; lia).
  lia.
Qed.

(** X1. From the first attempt on, the delay is at least one minute, at most
    twenty-four hours, and never shrinks as the attempt number grows. *)
Theorem getRetryDelay_bounded_monotone (a b : Z) :
  (1 ≤ a)%Z → (a ≤ b)%Z →
  (60000 <= getRetryDelay a)%Q
  ∧ (getRetryDelay a <= getRetryDelay b)%Q
  ∧ (getRetryDelay b <= 86400000)%Q.
Proof.
  intros Ha Hab.
  destruct (backoff_bounds a b Ha Hab) as (H1 & H2 & H3).
  rewrite (getRetryDelay_integer a Ha), (getRetryDelay_integer b) by lia.
  change 60000%Q with (inject_Z 60000). change 86400000%Q with (inject_Z 86400000).
  rewrite <- !Zle_Qle. auto.
Qed.

Lemma getRetryDelay_bounded_monotone_witness :
  (60000 <= getRetryDelay 3)%Q ∧ (getRetryDelay 3 <= getRetryDelay 40)%Q.
Proof.
  destruct (getRetryDelay_bounded_monotone 3 40 ltac:(lia) ltac:(lia)) as (H1 & H2 & _).
  split; [exact H1 | exact H2].
Defined.

(** X2. The delay doubles from each attempt to the next up to the eleventh
    attempt, where it is still below the cap, and is the cap of twenty-four
    hours from the twelfth attempt on. *)
Theorem getRetryDelay_doubles_then_caps (attempt : Z) :
  (1 ≤ attempt)%Z →
  ((attempt ≤ 10)%Z → getRetryDelay (attempt + 1) == 2 * getRetryDelay attempt)
  ∧ ((attempt ≤ 11)%Z → (getRetryDelay attempt < 86400000)%Q)
  ∧ ((12 ≤ attempt)%Z → getRetryDelay attempt == 86400000).
Proof.
  intros Ha. split; [|split].
  - intros Hle.
    rewrite (getRetryDelay_integer attempt Ha), (getRetryDelay_integer (attempt + 1)) by lia.
    rewrite !backoff_clamp by lia.
    destruct (Z.leb_spec (attempt + 1) 11); [|lia].
    destruct (Z.leb_spec attempt 11); [|lia].
    change 2%Q with (inject_Z 2). rewrite <- inject_Z_mult.
    replace (attempt + 1 - 1)%Z with (Z.succ (attempt - 1)) by lia.
    rewrite Z.pow_succ_r by lia.
    replace (2 * (60000 * 2 ^ (attempt - 1)))%Z
      with (60000 * (2 * 2 ^ (attempt - 1)))%Z by lia.
    reflexivity.
  - intros Hle. rewrite (getRetryDelay_integer attempt Ha), backoff_clamp by lia.
    destruct (Z.leb_spec attempt 11); [|lia].
    change 86400000%Q with (inject_Z 86400000). rewrite <- Zlt_Qlt.
    assert (2 ^ (attempt - 1) ≤ 2 ^ 10)%Z by (apply Z.pow_le_mono_r; lia).
    change (2 ^ 10)%Z with 1024%Z in *. lia.
  - intros Hge. rewrite (getRetryDelay_integer attempt Ha), backoff_clamp by lia.
    destruct (Z.leb_spec attempt 11); [lia | reflexivity].
Qed.

Lemma getRetryDelay_doubles_then_caps_witness :
  getRetryDelay 8 == 2 * getRetryDelay 7 ∧ (getRetryDelay 11 < 86400000)%Q.
Proof.
  split.
  - exact (proj1 (getRetryDelay_doubles_then_caps 7 ltac:(lia)) ltac:(lia)).
  - exact (proj1 (proj2 (getRetryDelay_doubles_then_caps 11 ltac:(lia))) ltac:(lia)).
Defined.

(* ====================================================================== *)
(** * Further properties: the credential vault *)
(* ====================================================================== *)

Lemma chars_app (a b : string) : chars (a +:+ b) = (chars a ++ chars b)%list.
Proof.
  induction a as [|c a IH]; rewrite ?append_empty, ?append_String; cbn [chars app];
    [reflexivity | rewrite IH; reflexivity].
Qed.

Lemma toString_hex_length (buf : list byte) :
  String.length (Buffer.toString_hex buf) = 2 * length buf.
Proof.
  induction buf as [|b buf IH]; cbn [Buffer.toString_hex String.length length];
    [reflexivity | rewrite IH; lia].
Qed.

Section VaultShape.
Context {C : NodeCrypto} (env : Env).

Lemma encrypt_Ok (iv : list byte) (text : JSString) (e : string) :
  encrypt env iv text = Ok e →
  gcm_iv_ok iv = true
  ∧ e = Buffer.toString_hex iv +:+ ":"
          +:+ Buffer.toString_hex (gcm_seal (getKey env) iv (Buffer.from_string text)).2 +:+ ":"
          +:+ Buffer.toString_hex (gcm_seal (getKey env) iv (Buffer.from_string text)).1.
Proof.
  unfold encrypt. destruct (gcm_iv_ok iv); [|discriminate].
  intros H. split; [reflexivity|]. congruence.
Qed.

(** X3. Every envelope [encrypt] returns is made of lowercase hexadecimal
    digits and colons only, splits on the colon into exactly three parts,
    and starts with the two-digits-per-byte hexadecimal text of the IV: the
    IV can be read back from it, so two encryptions that end in the same
    envelope used the same IV. *)
Theorem encrypt_envelope_shape (iv iv' : list byte) (text text' : JSString) (e : string) :
  encrypt env iv text = Ok e →
  length (split ":" e) = 3
  ∧ Forall (λ c, lower_hex c = true ∨ c = ":"%char) (chars e)
  ∧ split ":" e !! 0%nat = Some (Buffer.toString_hex iv)
  ∧ String.length (Buffer.toString_hex iv) = 2 * length iv
  ∧ Buffer.from (split ":" e !! 0%nat) = Ok iv
  ∧ (encrypt env iv' text' = Ok e → iv' = iv).
Proof.
  intros He. destruct (encrypt_Ok iv text e He) as [_ Hshape].
  set (sealed := gcm_seal (getKey env) iv (Buffer.from_string text)) in *.
  assert (Hsplit : split ":" e
    = [Buffer.toString_hex iv; Buffer.toString_hex sealed.2; Buffer.toString_hex sealed.1]).
  { rewrite Hshape. apply split_envelope; apply toString_hex_no_colon. }
  split; [rewrite Hsplit; reflexivity|].
  split.
  { rewrite Hshape, !chars_app. repeat apply Forall_app_2.
    - eapply Forall_impl; [apply toString_hex_lower|]. intros; left; assumption.
    - cbn [chars]. constructor; [right; reflexivity | constructor].
    - eapply Forall_impl; [apply toString_hex_lower|]. intros; left; assumption.
    - cbn [chars]. constructor; [right; reflexivity | constructor].
    - eapply Forall_impl; [apply toString_hex_lower|]. intros; left; assumption. }
  split; [rewrite Hsplit; reflexivity|].
  split; [apply toString_hex_length|].
  split; [rewrite Hsplit; cbn; rewrite from_hex_toString_hex; reflexivity|].
  intros He'. destruct (encrypt_Ok iv' text' e He') as [_ Hshape'].
  assert (Hsplit' : split ":" e !! 0%nat = Some (Buffer.toString_hex iv')).
  { rewrite Hshape'. rewrite split_envelope by apply toString_hex_no_colon. reflexivity. }
  rewrite Hsplit in Hsplit'. cbn in Hsplit'. injection Hsplit' as Heq.
  rewrite <- (from_hex_toString_hex iv'), <- Heq. apply from_hex_toString_hex.
Qed.

(** X4. [decrypt] returns a plaintext only for a text of at least three
    parts whose IV and tag the cipher accepts and whose ciphertext the
    cipher authenticates under the key of the environment: the plaintext is
    the one the cipher opened. *)
Theorem decrypt_only_authenticated (s : string) (text : JSString) :
  decrypt env s = Ok text →
  ∃ (ivHex authTagHex encrypted : string) (rest : list string) (opened : list byte),
    split ":" s = ivHex :: authTagHex :: encrypted :: rest
    ∧ gcm_iv_ok (Buffer.from_hex ivHex) = true
    ∧ gcm_tag_ok (Buffer.from_hex authTagHex) = true
    ∧ gcm_open (getKey env) (Buffer.from_hex ivHex) (Buffer.from_hex authTagHex)
        (Buffer.from_hex encrypted) = Some opened
    ∧ text = Buffer.toString_utf8 opened.
Proof.
  intros Hd.
  destruct (split ":" s) as [|a [|b [|c rest]]] eqn:Hs.
  - unfold decrypt in Hd. rewrite Hs in Hd. discriminate Hd.
  - unfold decrypt in Hd. rewrite Hs in Hd. discriminate Hd.
  - unfold decrypt in Hd. rewrite Hs in Hd. cbn in Hd.
    destruct (gcm_iv_ok _); [|discriminate Hd].
    destruct (gcm_tag_ok _); discriminate Hd.
  - rewrite (decrypt_three_parts env _ _ _ _ _ Hs) in Hd.
    destruct (gcm_iv_ok _) eqn:Hiv; [|discriminate Hd].
    destruct (gcm_tag_ok _) eqn:Htag; [|discriminate Hd].
    destruct (Nat.even _); [|discriminate Hd].
    destruct (gcm_open _ _ _ _) as [opened|] eqn:Hopen; [|discriminate Hd].
    injection Hd as <-. exists a, b, c, rest, opened. auto.
Qed.

End VaultShape.

Lemma encrypt_envelope_shape_witness :
  length (split ":" (Demo.blob "[1]")) = 3
  ∧ split ":" (Demo.blob "[1]") !! 0%nat = Some "2a2a2a2a2a2a2a2a2a2a2a2a2a2a2a2a".
Proof.
  destruct (@encrypt_envelope_shape Demo.crypto Demo.env Demo.iv Demo.iv
              (Buffer.code_units "[1]") (Buffer.code_units "[1]")
              (Demo.blob "[1]") eq_refl) as (Hlen & _ & Hiv & _).
  split; [exact Hlen | exact Hiv].
Defined.

Lemma decrypt_only_authenticated_witness :
  ∃ parts, split ":" (Demo.blob "[1]" +:+ ":00") = parts ∧ (3 ≤ length parts)%nat.
Proof.
  destruct (@decrypt_only_authenticated Demo.crypto Demo.env
              (Demo.blob "[1]" +:+ ":00") (Buffer.code_units "[1]") eq_refl)
    as (a & b & c & rest & opened & Hs & _).
  exists (a :: b :: c :: rest). split; [exact Hs | cbn; lia].
Defined.

(* ====================================================================== *)
(** * Further properties: the configuration lookup *)
(* ====================================================================== *)

Lemma find_filter_same {A : Type} (P : A → bool) (l : list A) :
  List.find P (List.filter P l) = List.find P l.
Proof.
  induction l as [|x l IH]; cbn; [reflexivity|].
  destruct (P x) eqn:Hx; cbn; [rewrite Hx; reflexivity | exact IH].
Qed.

Lemma find_None_Forall {A : Type} (P : A → bool) (l : list A) :
  List.find P l = None ↔ Forall (λ x, P x = false) l.
Proof.
  induction l as [|x l IH]; cbn.
  - split; [constructor | reflexivity].
  - destruct (P x) eqn:Hx.
    + split; [discriminate|]. intros H. inversion H; subst. congruence.
    + rewrite IH. split; [intros H; constructor; assumption|].
      intros H. inversion H; assumption.
Qed.

Lemma config_matches_false (m p : string) (r : ProcessorConfig) :
  config_matches m p r = false ↔ ¬ (pc_merchantId r = m ∧ pc_processor r = p).
Proof.
  unfold config_matches.
  destruct (bool_decide_reflect (pc_merchantId r = m));
    destruct (bool_decide_reflect (pc_processor r = p)); cbn; split;
    try discriminate; try reflexivity; tauto.
Qed.

Section ConfigLookupMore.
Context {C : NodeCrypto} {J : NodeJSON} (env : Env).

Lemma config_of_row_not_null (m p : string) (r : ProcessorConfig) :
  config_of_row env m p r ≠ Ok None.
Proof.
  unfold config_of_row. destruct (decrypt env _) as [text|e]; cbn; [|discriminate].
  destruct (JSON_parse text); cbn; discriminate.
Qed.

(** X5. For a merchant id that is the text the store prints for a uuid,
    [getProcessorConfig] answers [null] exactly when the table holds no row
    of the requested merchant and processor; with such a row it answers a
    configuration or throws. *)
Theorem getProcessorConfig_null_iff (m p : string) (db : Store) :
  Uuid.input m = Some m →
  getProcessorConfig env m p db = Ok None
  ↔ Forall (λ r, ¬ (pc_merchantId r = m ∧ pc_processor r = p)) (processorConfigs db).
Proof.
  intros _. rewrite getProcessorConfig_find.
  change (λ r : ProcessorConfig,
            bool_decide (pc_merchantId r = m) && bool_decide (pc_processor r = p))
    with (config_matches m p).
  destruct (List.find (config_matches m p) (processorConfigs db)) as [r|] eqn:Hfind.
  - split.
    + intros H. exfalso. exact (config_of_row_not_null m p r H).
    + intros H. exfalso.
      assert (Hnone : List.find (config_matches m p) (processorConfigs db) = None).
      { apply find_None_Forall. eapply Forall_impl; [exact H|].
        intros x Hx. apply config_matches_false. exact Hx. }
      congruence.
  - split; [|reflexivity]. intros _.
    apply find_None_Forall in Hfind. eapply Forall_impl; [exact Hfind|].
    intros x Hx. apply config_matches_false. exact Hx.
Qed.

(** X6. The lookup has no fallback: when the credentials of the first
    matching row do not decrypt, the error of [decrypt] is the outcome, and
    when they decrypt to a text that is no JSON the outcome is a
    [SyntaxError], whatever rows follow. *)
Theorem getProcessorConfig_first_row_error
    (m p : string) (db : Store) (pre post : list ProcessorConfig) (r : ProcessorConfig) :
  processorConfigs db = (pre ++ r :: post)%list →
  Forall (λ x, ¬ (pc_merchantId x = m ∧ pc_processor x = p)) pre →
  pc_merchantId r = m → pc_processor r = p →
  (∀ e, decrypt env (pc_credentialsEncrypted r) = Err e →
        getProcessorConfig env m p db = Err e)
  ∧ (∀ text, decrypt env (pc_credentialsEncrypted r) = Ok text →
        JSON_parse text = None →
        getProcessorConfig env m p db = Err SyntaxError).
Proof.
  intros Hrows Hpre Hm Hp.
  assert (Hfirst : getProcessorConfig env m p db = config_of_row env m p r).
  { rewrite getProcessorConfig_find, Hrows.
    change (λ r : ProcessorConfig,
              bool_decide (pc_merchantId r = m) && bool_decide (pc_processor r = p))
      with (config_matches m p).
    rewrite (find_first_match (config_matches m p) pre post r); [reflexivity| |].
    - eapply Forall_impl; [exact Hpre|]. intros x Hx. apply config_matches_false. exact Hx.
    - unfold config_matches. rewrite !bool_decide_eq_true_2 by assumption. reflexivity. }
  rewrite Hfirst. unfold config_of_row. split.
  - intros e He. rewrite He. reflexivity.
  - intros text Ht Hparse. rewrite Ht. cbn. rewrite Hparse. reflexivity.
Qed.

(** X7. The answer of [getProcessorConfig] depends on the rows of the
    requested merchant and processor only: dropping every other row from
    the table changes nothing. *)
Theorem getProcessorConfig_matching_rows_only (m p : string) (db : Store) :
  getProcessorConfig env m p
    (with_processorConfigs (List.filter (config_matches m p) (processorConfigs db)) db)
  = getProcessorConfig env m p db.
Proof.
  rewrite !getProcessorConfig_find. cbn [processorConfigs with_processorConfigs].
  change (λ r : ProcessorConfig,
            bool_decide (pc_merchantId r = m) && bool_decide (pc_processor r = p))
    with (config_matches m p).
  rewrite find_filter_same. reflexivity.
Qed.

End ConfigLookupMore.

Lemma getProcessorConfig_null_iff_witness :
  Uuid.input "7c9e6679-7425-40de-944b-e07fc1f90ae7" = Some "7c9e6679-7425-40de-944b-e07fc1f90ae7"
  ∧ @getProcessorConfig Demo.crypto Demo.json Demo.env
      "7c9e6679-7425-40de-944b-e07fc1f90ae7" "stripe" Demo.store = Ok None.
Proof.
  split; [reflexivity|].
  apply (proj2 (@getProcessorConfig_null_iff Demo.crypto Demo.json Demo.env
                  "7c9e6679-7425-40de-944b-e07fc1f90ae7" "stripe" Demo.store eq_refl)).
  repeat constructor; intros [H _]; discriminate H.
Defined.

Lemma getProcessorConfig_first_row_error_witness :
  @getProcessorConfig Demo.crypto Demo.json Demo.env "m-1" "stripe"
    Scenario.store_with_corrupt_config = Err TypeError.
Proof.
  exact (proj1 (@getProcessorConfig_first_row_error Demo.crypto Demo.json Demo.env
           "m-1" "stripe" Scenario.store_with_corrupt_config []
           [Demo.config "c-2" (Demo.blob "[2]") 1 true]
           (Demo.config "c-0" "not-an-envelope" 1 true)
           eq_refl (List.Forall_nil _) eq_refl eq_refl) TypeError eq_refl).
Defined.

(* ====================================================================== *)
(** * Further properties: the order ledger *)
(* ====================================================================== *)

Section LedgerMore.
Context {J : NodeJSON} (w : World).

(** The orders after an invocation: one update by primary key. *)
Lemma updateOrderStatus_orders (input : UpdateOrderStatusInput) (s : State) :
  orders (db (state_after (updateOrderStatus w input) s))
  = alter (set_order
             {| set_o_status := Some (status input);
                set_o_processorOrderId := or_undefined (processorOrderId input);
                set_o_updatedAt := Some (clock w (ticks s)) |})
      (orderId input) (orders (db s)).
Proof.
  unfold state_after. rewrite updateOrderStatus_run. cbn zeta.
  destruct (if truthy _ then _ else _); reflexivity.
Qed.

(** The other tables after an invocation. *)
Lemma updateOrderStatus_other_tables (input : UpdateOrderStatusInput) (s : State) :
  processorConfigs (db (state_after (updateOrderStatus w input) s)) = processorConfigs (db s)
  ∧ webhookEvents (db (state_after (updateOrderStatus w input) s)) = webhookEvents (db s)
  ∧ ∃ tail : list Transaction,
      transactions (db (state_after (updateOrderStatus w input) s))
        = (transactions (db s) ++ tail)%list
      ∧ (length tail ≤ 1)%nat
      ∧ Forall (λ row, t_orderId row = orderId input
                       ∧ t_processorTransactionId row = processorTransactionId input) tail.
Proof.
  unfold state_after. rewrite updateOrderStatus_run. cbn zeta.
  destruct (if truthy _ then _ else _).
  - split; [reflexivity|]. split; [reflexivity|].
    eexists [_]. split; [reflexivity|]. split; [cbn; lia|].
    constructor; [split; reflexivity | constructor].
  - split; [reflexivity|]. split; [reflexivity|].
    exists []. split; [cbn; rewrite app_nil_r; reflexivity|]. split; [cbn; lia | constructor].
Qed.

(** One invocation that carries a transaction id, for an order the store
    holds. *)
Lemma updateOrderStatus_txn_step (input : UpdateOrderStatusInput) (s : State) (o : Order) :
  orders (db s) !! orderId input = Some o →
  truthy (processorTransactionId input) = true →
  ∃ (row : Transaction) (o' : Order),
    transactions (db (state_after (updateOrderStatus w input) s))
      = (transactions (db s) ++ [row])%list
    ∧ orders (db (state_after (updateOrderStatus w input) s)) !! orderId input = Some o'
    ∧ o_amount o' = o_amount o
    ∧ t_amount row = o_amount o
    ∧ t_orderId row = orderId input
    ∧ t_processorTransactionId row = processorTransactionId input
    ∧ t_type row = (if String.eqb (status input) "captured" then "capture"
                    else if String.eqb (status input) "authorized" then "authorization"
                    else "authorization")
    ∧ t_status row = (if String.eqb (status input) "failed" then "failed" else "success").
Proof.
  intros Ho Htx.
  pose proof (updateOrderStatus_orders input s) as Hord.
  unfold state_after in *. rewrite updateOrderStatus_run in *. cbn zeta in *.
  rewrite Htx in *.
  set (v := {| set_o_status := Some (status input);
               set_o_processorOrderId := or_undefined (processorOrderId input);
               set_o_updatedAt := Some (clock w (ticks s)) |}) in *.
  assert (Hre : orders (update_orders v (orderId input) (db s)) !! orderId input
                = Some (set_order v o)).
  { unfold update_orders. cbn [orders]. rewrite lookup_alter_eq, Ho. reflexivity. }
  rewrite Hre in *. cbn [snd db] in *.
  eexists _, (set_order v o). split; [reflexivity|].
  split; [exact Hre|]. repeat split.
Qed.

(** X8. After [updateOrderStatus] for an order the store holds, [getOrder]
    returns the order with the new status and the time of the update; the
    processor order id is the one given when a non-empty one is given and
    the stored one otherwise, so the function cannot clear it; every other
    column, the amount among them, is as before. *)
Theorem updateOrderStatus_then_getOrder
    (input : UpdateOrderStatusInput) (s : State) (o : Order) :
  orders (db s) !! orderId input = Some o →
  ∃ o' : Order,
    result_of (getOrder (orderId input)) (state_after (updateOrderStatus w input) s)
      = Some o'
    ∧ o_status o' = status input
    ∧ o_updatedAt o' = clock w (ticks s)
    ∧ (∀ p : string, processorOrderId input = Some p → p ≠ EmptyString →
         o_processorOrderId o' = Some p)
    ∧ (processorOrderId input = None ∨ processorOrderId input = Some EmptyString →
         o_processorOrderId o' = o_processorOrderId o)
    ∧ same_order_details o o'.
Proof.
  intros Ho. unfold result_of, getOrder, query. cbn [fst].
  rewrite updateOrderStatus_orders, lookup_alter_eq, Ho.
  eexists. split; [reflexivity|]. cbn.
  split; [reflexivity|]. split; [reflexivity|]. split; [|split].
  - intros p Hp Hne. rewrite Hp. destruct p; [contradiction | reflexivity].
  - intros [H|H]; rewrite H; reflexivity.
  - unfold same_order_details. cbn. repeat split.
Qed.


(** X10. [updateOrderStatus] does not recognise an invocation it has already
    served: two invocations with the same non-empty transaction id, for an
    order the store holds, leave two transaction rows with that id, of the
    same order, amount, type and status. *)
Theorem updateOrderStatus_twice
    (input : UpdateOrderStatusInput) (s : State) (o : Order) (txn : string) :
  orders (db s) !! orderId input = Some o →
  processorTransactionId input = Some txn → txn ≠ EmptyString →
  ∃ row1 row2 : Transaction,
    transactions (db (state_after (updateOrderStatus w input)
                        (state_after (updateOrderStatus w input) s)))
      = (transactions (db s) ++ [row1; row2])%list
    ∧ t_processorTransactionId row1 = Some txn
    ∧ t_processorTransactionId row2 = Some txn
    ∧ t_orderId row1 = orderId input ∧ t_orderId row2 = orderId input
    ∧ t_amount row1 = o_amount o ∧ t_amount row2 = o_amount o
    ∧ t_type row1 = t_type row2
    ∧ t_status row1 = t_status row2.
Proof.
  intros Ho Htxn Hne.
  assert (Htruthy : truthy (processorTransactionId input) = true).
  { rewrite Htxn. destruct txn; [contradiction | reflexivity]. }
  destruct (updateOrderStatus_txn_step input s o Ho Htruthy)
    as (row1 & o1 & Htx1 & Ho1 & Ham1 & Hr1 & Hid1 & Hp1 & Hty1 & Hst1).
  destruct (updateOrderStatus_txn_step input _ o1 Ho1 Htruthy)
    as (row2 & o2 & Htx2 & _ & _ & Hr2 & Hid2 & Hp2 & Hty2 & Hst2).
  exists row1, row2. rewrite Htx2, Htx1, <- app_assoc. split; [reflexivity|].
  rewrite Hp1, Hp2, Htxn, Hr1, Hr2, Ham1, Hty1, Hty2, Hst1, Hst2. auto 10.
Qed.

End LedgerMore.

(* ====================================================================== *)
(** * Further properties: the webhook dispatcher *)
(* ====================================================================== *)

Section DispatcherMore.
Context {C : NodeCrypto} {J : NodeJSON} (w : World).

Lemma set_webhookEvent_identity (v : WebhookEventSet) (ev : WebhookEvent) :
  same_event_identity ev (set_webhookEvent v ev).
Proof. unfold same_event_identity. cbn. repeat split. Qed.

(** The store after an invocation: one update of the event by primary key,
    whose columns agree with the result returned. *)
Lemma deliverWebhook_db (input : WebhookDeliveryInput) (s : State) :
  ∃ v : WebhookEventSet,
    db (state_after (deliverWebhook w input) s)
      = update_webhookEvents v (webhookEventId input) (db s)
    ∧ attempts (result_of (deliverWebhook w input) s) = attempt_of input s
    ∧ set_we_attempts v = Some (attempt_of input s)
    ∧ set_we_lastAttemptAt v = Some (clock w (S (S (ticks s))))
    ∧ (success (result_of (deliverWebhook w input) s) = true →
         set_we_status v = Some "delivered"
         ∧ set_we_deliveredAt v = Some (clock w (S (S (S (ticks s))))))
    ∧ (success (result_of (deliverWebhook w input) s) = false →
         (set_we_status v = Some "pending" ∨ set_we_status v = Some "failed")
         ∧ set_we_deliveredAt v = None).
Proof.
  unfold state_after, result_of.
  destruct (remote w (S (ticks s)) (request_of w input s)) as [code|e] eqn:Hres.
  - rewrite (deliverWebhook_response w input s code Hres).
    destruct (ok code); cbn [fst snd db success attempts]; eexists;
      (split; [reflexivity|]); cbn; repeat split; try discriminate; auto.
  - rewrite (deliverWebhook_throws w input s e Hres).
    cbn [fst snd db success attempts]. eexists. split; [reflexivity|]. cbn.
    repeat split; try discriminate.
    destruct (5 <=? _)%Z; auto.
Qed.

(** The event after an invocation whose request is answered. *)
Lemma deliverWebhook_event_response
    (input : WebhookDeliveryInput) (s : State) (code : Z) (ev : WebhookEvent) :
  remote w (S (ticks s)) (request_of w input s) = Response code →
  webhookEvents (db s) !! webhookEventId input = Some ev →
  ∃ ev' : WebhookEvent,
    webhookEvents (db (state_after (deliverWebhook w input) s)) !! webhookEventId input
      = Some ev'
    ∧ we_attempts ev' = (we_attempts ev + 1)%Z
    ∧ we_status ev' = (if ok code then "delivered" else "pending")
    ∧ we_deliveredAt ev'
      = (if ok code then Some (clock w (S (S (S (ticks s))))) else we_deliveredAt ev)
    ∧ we_nextRetryAt ev'
      = (if ok code then we_nextRetryAt ev
         else Some (retryDate (clock w (S (S (S (ticks s))))) (we_attempts ev + 1)))
    ∧ same_event_identity ev ev'.
Proof.
  intros Hres Hev. unfold state_after.
  rewrite (deliverWebhook_response w input s code Hres).
  rewrite (attempt_of_event input s ev Hev).
  destruct (ok code); cbn [snd db]; eexists;
    (split; [apply update_webhookEvents_lookup; exact Hev|]);
    (split; [reflexivity|]); (split; [reflexivity|]); (split; [reflexivity|]);
    (split; [reflexivity|]); apply set_webhookEvent_identity.
Qed.

(** The event after an invocation whose request throws. *)
Lemma deliverWebhook_event_throws
    (input : WebhookDeliveryInput) (s : State) (e : Thrown) (ev : WebhookEvent) :
  remote w (S (ticks s)) (request_of w input s) = Throws e →
  webhookEvents (db s) !! webhookEventId input = Some ev →
  ∃ ev' : WebhookEvent,
    webhookEvents (db (state_after (deliverWebhook w input) s)) !! webhookEventId input
      = Some ev'
    ∧ we_attempts ev' = (we_attempts ev + 1)%Z
    ∧ we_status ev' = (if (5 <=? we_attempts ev + 1)%Z then "failed" else "pending")
    ∧ we_deliveredAt ev' = we_deliveredAt ev
    ∧ same_event_identity ev ev'.
Proof.
  intros Hres Hev. unfold state_after.
  rewrite (deliverWebhook_throws w input s e Hres).
  rewrite (attempt_of_event input s ev Hev). cbn [snd db].
  eexists. split; [apply update_webhookEvents_lookup; exact Hev|].
  split; [reflexivity|]. split; [reflexivity|]. split; [reflexivity|].
  apply set_webhookEvent_identity.
Qed.


(** X12. For an event id that is the text the store prints for a uuid and
    under which the store holds no event, [deliverWebhook] still sends its
    request and reports a first attempt, and records nothing: the store is
    as before. *)
Theorem deliverWebhook_unknown_event (input : WebhookDeliveryInput) (s : State) :
  Uuid.input (webhookEventId input) = Some (webhookEventId input) →
  webhookEvents (db s) !! webhookEventId input = None →
  db (state_after (deliverWebhook w input) s) = db s
  ∧ attempts (result_of (deliverWebhook w input) s) = 1%Z
  ∧ sent (state_after (deliverWebhook w input) s)
    = (sent s ++ [request_of w input s])%list.
Proof.
  intros _ Hno. destruct (deliverWebhook_db input s) as (v & Hdb & Hatt & _).
  split; [|split].
  - rewrite Hdb. apply update_webhookEvents_absent. exact Hno.
  - rewrite Hatt. unfold attempt_of. rewrite Hno. reflexivity.
  - apply deliverWebhook_sent.
Qed.

(** X13. For a stored event, what an invocation returns agrees with what it
    stores: the attempt count returned is the count stored, one more than
    before; the status stored is [delivered] exactly when the result reports
    success; the delivery time is written on success and left as it was
    otherwise, so a delivery time once set is never removed; the last
    attempt time is always written; the merchant, order, type, payload,
    workflow and creation time of the event are never written. *)
Theorem deliverWebhook_result_agrees_with_store
    (input : WebhookDeliveryInput) (s : State) (ev : WebhookEvent) :
  webhookEvents (db s) !! webhookEventId input = Some ev →
  ∃ ev' : WebhookEvent,
    webhookEvents (db (state_after (deliverWebhook w input) s)) !! webhookEventId input
      = Some ev'
    ∧ we_attempts ev' = (we_attempts ev + 1)%Z
    ∧ attempts (result_of (deliverWebhook w input) s) = we_attempts ev'
    ∧ (success (result_of (deliverWebhook w input) s) = true ↔ we_status ev' = "delivered")
    ∧ (success (result_of (deliverWebhook w input) s) = true →
         we_deliveredAt ev' = Some (clock w (S (S (S (ticks s))))))
    ∧ (success (result_of (deliverWebhook w input) s) = false →
         we_deliveredAt ev' = we_deliveredAt ev)
    ∧ (is_Some (we_deliveredAt ev) → is_Some (we_deliveredAt ev'))
    ∧ we_lastAttemptAt ev' = Some (clock w (S (S (ticks s))))
    ∧ same_event_identity ev ev'.
Proof.
  intros Hev.
  destruct (deliverWebhook_db input s) as (v & Hdb & Hatt & Hva & Hvl & Hyes & Hno).
  exists (set_webhookEvent v ev).
  split; [rewrite Hdb; apply update_webhookEvents_lookup; exact Hev|].
  rewrite Hatt, (attempt_of_event input s ev Hev) in *.
  cbn [set_webhookEvent we_attempts we_status we_deliveredAt we_lastAttemptAt].
  rewrite Hva, Hvl. cbn [assign assign_nullable].
  split; [reflexivity|]. split; [reflexivity|].
  destruct (success (result_of (deliverWebhook w input) s)).
  - destruct (Hyes eq_refl) as [Hst Hdel]. rewrite Hst, Hdel. cbn [assign assign_nullable].
    split; [split; reflexivity|]. split; [reflexivity|]. split; [discriminate|].
    split; [intros _; eexists; reflexivity|]. split; [reflexivity|].
    apply set_webhookEvent_identity.
  - destruct (Hno eq_refl) as [Hst Hdel]. rewrite Hdel. cbn [assign_nullable].
    split; [split; [discriminate|]; destruct Hst as [Hst|Hst]; rewrite Hst;
            cbn [assign]; discriminate|].
    split; [discriminate|]. split; [reflexivity|]. split; [trivial|].
    split; [reflexivity|]. apply set_webhookEvent_identity.
Qed.

End DispatcherMore.

Section Redelivery.
Context {C : NodeCrypto} {J : NodeJSON} (w : World).

Lemma same_event_identity_trans (a b c : WebhookEvent) :
  same_event_identity a b → same_event_identity b c → same_event_identity a c.
Proof.
  unfold same_event_identity.
  intros (H1 & H2 & H3 & H4 & H5 & H6) (G1 & G2 & G3 & G4 & G5 & G6).
  repeat split; congruence.
Qed.

Lemma ok_false (code : Z) : ¬ (200 ≤ code ≤ 299)%Z → ok code = false.
Proof.
  intros H. unfold ok. apply andb_false_iff.
  destruct (Z.leb_spec 200 code); [|auto].
  destruct (Z.leb_spec code 299); [lia | auto].
Qed.

Lemma ok_true (code : Z) : (200 ≤ code ≤ 299)%Z → ok code = true.
Proof. intros H. unfold ok. apply andb_true_iff. lia. Qed.

(** One invocation, whatever its outcome, for a stored event. *)
Lemma deliverWebhook_event_step (input : WebhookDeliveryInput) (s : State) (ev : WebhookEvent) :
  webhookEvents (db s) !! webhookEventId input = Some ev →
  ∃ ev' : WebhookEvent,
    webhookEvents (db (state_after (deliverWebhook w input) s)) !! webhookEventId input
      = Some ev'
    ∧ we_attempts ev' = (we_attempts ev + 1)%Z
    ∧ same_event_identity ev ev'.
Proof.
  intros Hev.
  destruct (remote w (S (ticks s)) (request_of w input s)) as [code|e] eqn:Hres.
  - destruct (deliverWebhook_event_response w input s code ev Hres Hev)
      as (ev' & H1 & H2 & _ & _ & _ & H3). eauto.
  - destruct (deliverWebhook_event_throws w input s e ev Hres Hev)
      as (ev' & H1 & H2 & _ & _ & H3). eauto.
Qed.

Lemma deliverWebhook_times_S (input : WebhookDeliveryInput) (n : nat) (s : State) :
  deliverWebhook_times w input (S n) s
  = state_after (deliverWebhook w input) (deliverWebhook_times w input n s).
Proof. reflexivity. Qed.

(** X14. Every invocation counts: after [n] invocations for a stored event,
    whatever their outcomes, the attempt count stored has grown by exactly
    [n], [n] requests were sent, and the event is still the same event. *)
Theorem deliverWebhook_times_counts
    (input : WebhookDeliveryInput) (s : State) (ev : WebhookEvent) (n : nat) :
  webhookEvents (db s) !! webhookEventId input = Some ev →
  ∃ ev' : WebhookEvent,
    webhookEvents (db (deliverWebhook_times w input n s)) !! webhookEventId input = Some ev'
    ∧ we_attempts ev' = (we_attempts ev + Z.of_nat n)%Z
    ∧ length (sent (deliverWebhook_times w input n s)) = (length (sent s) + n)%nat
    ∧ same_event_identity ev ev'.
Proof.
  intros Hev. induction n as [|n (evn & Hn & Hatt & Hsent & Hid)].
  - exists ev. split; [exact Hev|]. split; [lia|]. split; [cbn; lia|].
    unfold same_event_identity. repeat split.
  - rewrite deliverWebhook_times_S.
    destruct (deliverWebhook_event_step input _ evn Hn) as (ev' & H1 & H2 & H3).
    exists ev'. split; [exact H1|]. split; [lia|]. split.
    + rewrite deliverWebhook_sent, length_app, Hsent. cbn. lia.
    + exact (same_event_identity_trans _ _ _ Hid H3).
Qed.

(** X15. The statuses [delivered] and [failed] are not final for
    [deliverWebhook], which never reads the stored status: a delivered event
    whose new request is answered outside 200..299 becomes [pending] again,
    with its delivery time kept, and a failed event whose new request is
    answered 2xx becomes [delivered]. *)
Theorem deliverWebhook_overwrites_final_status
    (input : WebhookDeliveryInput) (s : State) (ev : WebhookEvent) (code : Z) :
  webhookEvents (db s) !! webhookEventId input = Some ev →
  remote w (S (ticks s)) (request_of w input s) = Response code →
  ∃ ev' : WebhookEvent,
    webhookEvents (db (state_after (deliverWebhook w input) s)) !! webhookEventId input
      = Some ev'
    ∧ (we_status ev = "delivered" → ¬ (200 ≤ code ≤ 299)%Z →
         we_status ev' = "pending" ∧ we_deliveredAt ev' = we_deliveredAt ev)
    ∧ (we_status ev = "failed" → (200 ≤ code ≤ 299)%Z →
         we_status ev' = "delivered" ∧ is_Some (we_deliveredAt ev')).
Proof.
  intros Hev Hres.
  destruct (deliverWebhook_event_response w input s code ev Hres Hev)
    as (ev' & H1 & _ & Hst & Hdel & _).
  exists ev'. split; [exact H1|]. split.
  - intros _ Hcode. rewrite (ok_false code Hcode) in *. auto.
  - intros _ Hcode. rewrite (ok_true code Hcode) in *. split; [exact Hst|].
    rewrite Hdel. eexists; reflexivity.
Qed.

(** X16. Against an endpoint that answers every request with the same
    status outside 200..299, a stored event never becomes [failed]: after
    any number [n >= 1] of invocations it is [pending], with [n] more
    attempts counted and a next retry time set. *)
Theorem deliverWebhook_non_2xx_never_fails
    (input : WebhookDeliveryInput) (s : State) (ev : WebhookEvent) (code : Z) (n : nat) :
  (∀ t req, remote w t req = Response code) →
  ¬ (200 ≤ code ≤ 299)%Z →
  webhookEvents (db s) !! webhookEventId input = Some ev →
  (1 ≤ n)%nat →
  ∃ ev' : WebhookEvent,
    webhookEvents (db (deliverWebhook_times w input n s)) !! webhookEventId input = Some ev'
    ∧ we_status ev' = "pending"
    ∧ we_attempts ev' = (we_attempts ev + Z.of_nat n)%Z
    ∧ is_Some (we_nextRetryAt ev').
Proof.
  intros Hworld Hcode Hev Hn.
  assert (Hall : ∀ k : nat, ∃ evk : WebhookEvent,
    webhookEvents (db (deliverWebhook_times w input k s)) !! webhookEventId input = Some evk
    ∧ we_attempts evk = (we_attempts ev + Z.of_nat k)%Z
    ∧ (k ≠ 0%nat → we_status evk = "pending" ∧ is_Some (we_nextRetryAt evk))).
  { induction k as [|k (evk & Hk & Hatt & _)].
    - exists ev. split; [exact Hev|]. split; [lia|]. intros H; contradiction.
    - rewrite deliverWebhook_times_S.
      destruct (deliverWebhook_event_response w input _ code evk (Hworld _ _) Hk)
        as (ev' & H1 & H2 & Hst & _ & Hnext & _).
      rewrite (ok_false code Hcode) in *.
      exists ev'. split; [exact H1|]. split; [lia|]. intros _.
      split; [exact Hst|]. rewrite Hnext. eexists; reflexivity. }
  destruct (Hall n) as (ev' & H1 & H2 & H3).
  exists ev'. destruct H3 as [Hst Hnext]; [lia|]. auto.
Qed.

(** X17. Against an endpoint every request to which throws, the invocation
    that brings the attempt count of a stored event to five is the first to
    set it [failed]: after [n >= 1] invocations the status is [failed] if the
    count has reached five and [pending] otherwise. *)
Theorem deliverWebhook_throwing_fails_at_five
    (input : WebhookDeliveryInput) (s : State) (ev : WebhookEvent) (n : nat) :
  (∀ t req, ∃ e, remote w t req = Throws e) →
  webhookEvents (db s) !! webhookEventId input = Some ev →
  (1 ≤ n)%nat →
  ∃ ev' : WebhookEvent,
    webhookEvents (db (deliverWebhook_times w input n s)) !! webhookEventId input = Some ev'
    ∧ we_attempts ev' = (we_attempts ev + Z.of_nat n)%Z
    ∧ we_status ev'
      = (if (5 <=? we_attempts ev + Z.of_nat n)%Z then "failed" else "pending").
Proof.
  intros Hworld Hev Hn.
  assert (Hall : ∀ k : nat, ∃ evk : WebhookEvent,
    webhookEvents (db (deliverWebhook_times w input k s)) !! webhookEventId input = Some evk
    ∧ we_attempts evk = (we_attempts ev + Z.of_nat k)%Z
    ∧ (k ≠ 0%nat →
       we_status evk
       = (if (5 <=? we_attempts ev + Z.of_nat k)%Z then "failed" else "pending"))).
  { induction k as [|k (evk & Hk & Hatt & _)].
    - exists ev. split; [exact Hev|]. split; [lia|]. intros H; contradiction.
    - rewrite deliverWebhook_times_S.
      destruct (Hworld (S (ticks (deliverWebhook_times w input k s)))
                  (request_of w input (deliverWebhook_times w input k s))) as [e He].
      destruct (deliverWebhook_event_throws w input _ e evk He Hk)
        as (ev' & H1 & H2 & Hst & _).
      exists ev'. split; [exact H1|]. split; [lia|]. intros _.
      rewrite Hst, Hatt.
      replace (we_attempts ev + Z.of_nat k + 1)%Z
        with (we_attempts ev + Z.of_nat (S k))%Z by lia.
      reflexivity. }
  destruct (Hall n) as (ev' & H1 & H2 & H3).
  exists ev'. split; [exact H1|]. split; [exact H2|]. apply H3. lia.
Qed.

End Redelivery.

(* ====================================================================== *)
(** * Further properties: merchants and new events *)
(* ====================================================================== *)

Lemma or_null_not_empty (s : option string) : or_null s ≠ Some EmptyString.
Proof. unfold or_null. destruct s as [[|c s]|]; cbn; discriminate. Qed.

Lemma or_null_Some (s : option string) (v : string) :
  or_null s = Some v ↔ s = Some v ∧ v ≠ EmptyString.
Proof.
  unfold or_null. destruct s as [[|c s]|]; cbn; split;
    try discriminate; try (intros [H _]; discriminate H).
  - intros [H Hne]. injection H as <-. contradiction.
  - intros H. injection H as <-. split; [reflexivity | discriminate].
  - intros [H _]. exact H.
Qed.

Lemma truthy_or_null (s : option string) : truthy (or_null s) = bool_decide (is_Some (or_null s)).
Proof. unfold or_null. destruct s as [[|c s]|]; reflexivity. Qed.

(** X18. For a merchant id that is the text the store prints for a uuid,
    [getMerchantWebhookUrl] answers [null] for both fields when the store
    holds no merchant under it, and never answers an empty string: a field
    is the stored value when that is a non-empty string, and [null] when the
    stored value is null or empty. *)
Theorem getMerchantWebhookUrl_normalises (merchants : gmap string Merchant) (id : string) :
  Uuid.input id = Some id →
  (merchants !! id = None →
     url (getMerchantWebhookUrl merchants id) = None
     ∧ secret (getMerchantWebhookUrl merchants id) = None)
  ∧ url (getMerchantWebhookUrl merchants id) ≠ Some EmptyString
  ∧ secret (getMerchantWebhookUrl merchants id) ≠ Some EmptyString
  ∧ (∀ (m : Merchant) (v : string), merchants !! id = Some m →
       (url (getMerchantWebhookUrl merchants id) = Some v
        ↔ m_webhookUrl m = Some v ∧ v ≠ EmptyString)
       ∧ (secret (getMerchantWebhookUrl merchants id) = Some v
          ↔ m_webhookSecret m = Some v ∧ v ≠ EmptyString)).
Proof.
  intros _. unfold getMerchantWebhookUrl. cbn [url secret].
  split; [intros ->; split; reflexivity|].
  split; [apply or_null_not_empty|]. split; [apply or_null_not_empty|].
  intros m v ->. cbn. split; apply or_null_Some.
Qed.

Lemma getMerchantWebhookUrl_normalises_witness :
  Uuid.input "7c9e6679-7425-40de-944b-e07fc1f90ae7" = Some "7c9e6679-7425-40de-944b-e07fc1f90ae7"
  ∧ url (getMerchantWebhookUrl Scenario.merchants "7c9e6679-7425-40de-944b-e07fc1f90ae7")
    = None.
Proof.
  split; [reflexivity|].
  exact (proj1 (proj1 (getMerchantWebhookUrl_normalises Scenario.merchants
                         "7c9e6679-7425-40de-944b-e07fc1f90ae7" eq_refl) eq_refl)).
Defined.

Section MerchantDelivery.
Context {C : NodeCrypto} {J : NodeJSON} (w : World).

(** X19. When the secret given to [deliverWebhook] is the one
    [getMerchantWebhookUrl] answered, the request is signed exactly when
    that answer is not [null], and then with the stored secret as key. *)
Theorem deliverWebhook_signs_for_merchant_secret
    (merchants : gmap string Merchant) (id : string)
    (input : WebhookDeliveryInput) (s : State) :
  webhookSecret input = secret (getMerchantWebhookUrl merchants id) →
  (is_Some (req_headers (request_of w input s) !! "X-Loop-Signature")
   ↔ is_Some (secret (getMerchantWebhookUrl merchants id)))
  ∧ (∀ key : string, secret (getMerchantWebhookUrl merchants id) = Some key →
       (∃ m, merchants !! id = Some m ∧ m_webhookSecret m = Some key)
       ∧ req_headers (request_of w input s) !! "X-Loop-Signature"
         = Some ("v1=" +:+ Buffer.toString_hex
                   (hmac_sha256 (Buffer.from_utf8 key)
                      (Buffer.from_utf8
                         (String_of_number (clock w (ticks s)) +:+ "."
                            +:+ JSON_stringify (payload input)))))).
Proof.
  intros Hsecret. unfold request_of. rewrite signedRequest_signature, Hsecret.
  unfold getMerchantWebhookUrl. cbn [secret].
  rewrite truthy_or_null. split.
  - case_bool_decide as Hsome; [|split; [intros [? H]; discriminate H | contradiction]].
    split; [intros _; exact Hsome | intros _; eexists; reflexivity].
  - intros key Hkey. rewrite Hkey. cbn.
    apply or_null_Some in Hkey. destruct Hkey as [Hkey _]. split; [|reflexivity].
    destruct (merchants !! id) as [m|]; [|discriminate Hkey]. eauto.
Qed.

(** What [createWebhookEvent] does, by the three checks of the store. *)
Lemma createWebhookEvent_run (merchants : gmap string Merchant)
    (input : CreateWebhookEventInput) (s : State) :
  createWebhookEvent w merchants input s =
    let id := random_uuid w (ticks s) in
    let rejected (e : StoreError) : (StoreError + string) * State :=
      (inl e, {| db := db s; ticks := S (ticks s); sent := sent s |}) in
    match webhookEvents (db s) !! id, merchants !! new_merchantId input,
          orders (db s) !! new_orderId input with
    | Some _, _, _ => rejected UniqueViolation
    | None, Some _, Some _ =>
        (inr id,
         {| db := insert_webhookEvents id
                    {| we_merchantId := new_merchantId input;
                       we_orderId := Some (new_orderId input);
                       we_eventType := new_eventType input;
                       we_payload := new_payload input;
                       we_status := "pending";
                       we_attempts := 0;
                       we_lastAttemptAt := None;
                       we_nextRetryAt := None;
                       we_deliveredAt := None;
                       we_workflowId := None;
                       we_createdAt := store_now w (ticks s) |} (db s);
            ticks := S (ticks s);
            sent := sent s |})
    | None, _, _ => rejected ForeignKeyViolation
    end.
Proof.
  unfold createWebhookEvent. run_M.
  destruct (webhookEvents (db s) !! random_uuid w (ticks s)); [reflexivity|].
  destruct (merchants !! new_merchantId input);
    destruct (orders (db s) !! new_orderId input); reflexivity.
Qed.

(** X20. When the generated id is free and the merchant and the order
    exist, [createWebhookEvent] returns the generated id and the store holds
    under it an event with the given merchant, order, type and payload, in
    status [pending], with no attempt counted and no attempt, retry or
    delivery time; every other event and every other table is as before. *)
Theorem createWebhookEvent_creates_pending (merchants : gmap string Merchant)
    (input : CreateWebhookEventInput) (s : State) (m : Merchant) (o : Order) :
  webhookEvents (db s) !! random_uuid w (ticks s) = None →
  merchants !! new_merchantId input = Some m →
  orders (db s) !! new_orderId input = Some o →
  result_of (createWebhookEvent w merchants input) s = inr (random_uuid w (ticks s))
  ∧ (∃ ev : WebhookEvent,
       webhookEvents (db (state_after (createWebhookEvent w merchants input) s))
         !! random_uuid w (ticks s) = Some ev
       ∧ we_status ev = "pending"
       ∧ we_attempts ev = 0%Z
       ∧ we_lastAttemptAt ev = None
       ∧ we_nextRetryAt ev = None
       ∧ we_deliveredAt ev = None
       ∧ we_merchantId ev = new_merchantId input
       ∧ we_orderId ev = Some (new_orderId input)
       ∧ we_eventType ev = new_eventType input
       ∧ we_payload ev = new_payload input)
  ∧ (∀ id : string, id ≠ random_uuid w (ticks s) →
       webhookEvents (db (state_after (createWebhookEvent w merchants input) s)) !! id
       = webhookEvents (db s) !! id)
  ∧ orders (db (state_after (createWebhookEvent w merchants input) s)) = orders (db s)
  ∧ transactions (db (state_after (createWebhookEvent w merchants input) s))
    = transactions (db s)
  ∧ processorConfigs (db (state_after (createWebhookEvent w merchants input) s))
    = processorConfigs (db s).
Proof.
  intros Hfree Hm Ho. unfold result_of, state_after.
  rewrite createWebhookEvent_run. cbn zeta. rewrite Hfree, Hm, Ho.
  cbn [fst snd db insert_webhookEvents webhookEvents orders transactions processorConfigs].
  split; [reflexivity|]. split.
  - eexists. split; [apply lookup_insert_eq|]. repeat split.
  - split; [|repeat split].
    intros id Hne. apply lookup_insert_ne. congruence.
Qed.

(** X22. The first delivery of an event [createWebhookEvent] has just
    created is attempt number 1, whatever the endpoint does; when the
    request is answered 2xx the event ends [delivered] with one attempt, a
    delivery time and no next retry time. *)
Theorem createWebhookEvent_then_deliverWebhook (merchants : gmap string Merchant)
    (new : CreateWebhookEventInput) (input : WebhookDeliveryInput) (s : State)
    (m : Merchant) (o : Order) :
  webhookEvents (db s) !! random_uuid w (ticks s) = None →
  merchants !! new_merchantId new = Some m →
  orders (db s) !! new_orderId new = Some o →
  webhookEventId input = random_uuid w (ticks s) →
  attempts (result_of (deliverWebhook w input)
              (state_after (createWebhookEvent w merchants new) s)) = 1%Z
  ∧ (∀ code : Z,
       remote w (S (S (ticks s)))
         (request_of w input (state_after (createWebhookEvent w merchants new) s))
         = Response code →
       (200 ≤ code ≤ 299)%Z →
       ∃ ev : WebhookEvent,
         webhookEvents (db (state_after (deliverWebhook w input)
                              (state_after (createWebhookEvent w merchants new) s)))
           !! webhookEventId input = Some ev
         ∧ we_status ev = "delivered"
         ∧ we_attempts ev = 1%Z
         ∧ is_Some (we_deliveredAt ev)
         ∧ we_nextRetryAt ev = None
         ∧ we_eventType ev = new_eventType new
         ∧ we_payload ev = new_payload new).
Proof.
  intros Hfree Hm Ho Hid.
  set (s1 := state_after (createWebhookEvent w merchants new) s) in *.
  assert (Hs1 : ∃ ev0 : WebhookEvent,
    webhookEvents (db s1) !! webhookEventId input = Some ev0
    ∧ we_attempts ev0 = 0%Z ∧ we_nextRetryAt ev0 = None
    ∧ we_eventType ev0 = new_eventType new ∧ we_payload ev0 = new_payload new
    ∧ ticks s1 = S (ticks s)).
  { subst s1. unfold state_after. rewrite createWebhookEvent_run. cbn zeta.
    rewrite Hfree, Hm, Ho, Hid.
    cbn [snd db insert_webhookEvents webhookEvents ticks].
    eexists. split; [apply lookup_insert_eq|]. repeat split. }
  destruct Hs1 as (ev0 & Hev0 & Hatt0 & Hnext0 & Hty0 & Hpay0 & Hticks).
  destruct (deliverWebhook_db w input s1) as (v & _ & Hatt & _).
  split.
  - rewrite Hatt, (attempt_of_event input s1 ev0 Hev0), Hatt0. reflexivity.
  - intros code Hres Hcode. rewrite <- Hticks in Hres.
    destruct (deliverWebhook_event_response w input s1 code ev0 Hres Hev0)
      as (ev & H1 & H2 & Hst & Hdel & Hnext & Hident).
    rewrite (ok_true code Hcode) in *.
    exists ev. split; [exact H1|]. split; [exact Hst|]. split; [lia|].
    split; [rewrite Hdel; eexists; reflexivity|]. split; [congruence|].
    destruct Hident as (_ & _ & Hty & Hpay & _). split; congruence.
Qed.

End MerchantDelivery.

(* ====================================================================== *)
(** * More examples *)
(* ====================================================================== *)

Section MoreExamples.
#[local] Existing Instance Demo.crypto.
#[local] Existing Instance Demo.json.

Lemma updateOrderStatus_then_getOrder_witness :
  ∃ o',
    result_of (getOrder "o-1")
      (state_after (updateOrderStatus Demo.world (Demo.update "o-1" "captured" None))
         Demo.state) = Some o'
    ∧ o_status o' = "captured"
    ∧ o_amount o' = 4200%Z.
Proof.
  destruct (@updateOrderStatus_then_getOrder Demo.json Demo.world
              (Demo.update "o-1" "captured" None) Demo.state Demo.order eq_refl)
    as (o' & Hget & Hst & _ & _ & _ & Hsame).
  exists o'. split; [exact Hget|]. split; [exact Hst|].
  destruct Hsame as (_ & _ & Ham & _). symmetry. exact Ham.
Defined.

Lemma updateOrderStatus_twice_witness :
  length (transactions (db
    (state_after (updateOrderStatus Demo.world (Demo.update "o-1" "captured" (Some "pi_1")))
       (state_after (updateOrderStatus Demo.world (Demo.update "o-1" "captured" (Some "pi_1")))
          Demo.state)))) = 2%nat.
Proof.
  destruct (@updateOrderStatus_twice Demo.json Demo.world
              (Demo.update "o-1" "captured" (Some "pi_1")) Demo.state Demo.order "pi_1"
              eq_refl eq_refl ltac:(discriminate))
    as (row1 & row2 & Htx & _).
  exact (f_equal (@length _) Htx).
Defined.

Lemma deliverWebhook_unknown_event_witness :
  Uuid.input "7c9e6679-7425-40de-944b-e07fc1f90ae7" = Some "7c9e6679-7425-40de-944b-e07fc1f90ae7"
  ∧ db (state_after
          (deliverWebhook Demo.world
             {| webhookEventId := "7c9e6679-7425-40de-944b-e07fc1f90ae7";
                webhookUrl := "https://merchant.example/hook";
                webhookSecret := None;
                payload := Demo.text "{}" |})
          Demo.state) = Demo.store.
Proof.
  split; [reflexivity|].
  exact (proj1 (@deliverWebhook_unknown_event Demo.crypto Demo.json Demo.world
                  {| webhookEventId := "7c9e6679-7425-40de-944b-e07fc1f90ae7";
                     webhookUrl := "https://merchant.example/hook";
                     webhookSecret := None;
                     payload := Demo.text "{}" |}
                  Demo.state eq_refl eq_refl)).
Defined.

Lemma deliverWebhook_result_agrees_with_store_witness :
  attempts (result_of (deliverWebhook Demo.world (Demo.delivery None)) Demo.state) = 1%Z.
Proof.
  destruct (@deliverWebhook_result_agrees_with_store Demo.crypto Demo.json Demo.world
              (Demo.delivery None) Demo.state Demo.event eq_refl)
    as (ev' & _ & Hatt & Hres & _).
  exact (eq_trans Hres Hatt).
Defined.

Lemma deliverWebhook_times_counts_witness :
  ∃ ev',
    webhookEvents (db (deliverWebhook_times Demo.world (Demo.delivery None) 3 Demo.state))
      !! "evt-1" = Some ev'
    ∧ we_attempts ev' = 3%Z.
Proof.
  destruct (@deliverWebhook_times_counts Demo.crypto Demo.json Demo.world
              (Demo.delivery None) Demo.state Demo.event 3 eq_refl)
    as (ev' & Hev' & Hatt & _).
  exists ev'. split; [exact Hev' | exact Hatt].
Defined.

Lemma deliverWebhook_overwrites_final_status_witness :
  we_status <$> (webhookEvents (db Demo.after_500_200.2) !! "evt-1") = Some "delivered"
  ∧ ∃ ev',
      webhookEvents (db (state_after
          (deliverWebhook Scenario.unavailable (Demo.delivery None)) Demo.after_500_200.2))
        !! "evt-1" = Some ev'
      ∧ we_status ev' = "pending"
      ∧ we_deliveredAt ev' = Some 1700000007000%Z.
Proof.
  split; [reflexivity|].
  destruct (@deliverWebhook_overwrites_final_status Demo.crypto Demo.json
              Scenario.unavailable (Demo.delivery None) Demo.after_500_200.2
              (set_webhookEvent
                 {| set_we_status := Some "delivered";
                    set_we_attempts := Some 2%Z;
                    set_we_lastAttemptAt := Some 1700000006000%Z;
                    set_we_deliveredAt := Some 1700000007000%Z;
                    set_we_nextRetryAt := Some 1700000063000%Z |} Demo.event)
              503%Z eq_refl eq_refl)
    as (ev' & Hev' & Hback & _).
  exists ev'. split; [exact Hev'|].
  exact (Hback eq_refl ltac:(lia)).
Defined.

Lemma deliverWebhook_non_2xx_never_fails_witness :
  ∃ ev',
    webhookEvents (db (deliverWebhook_times Scenario.unavailable (Demo.delivery None) 7
                         Demo.state)) !! "evt-1" = Some ev'
    ∧ we_status ev' = "pending"
    ∧ we_attempts ev' = 7%Z.
Proof.
  destruct (@deliverWebhook_non_2xx_never_fails Demo.crypto Demo.json Scenario.unavailable
              (Demo.delivery None) Demo.state Demo.event 503%Z 7
              (λ _ _, eq_refl) ltac:(lia) eq_refl ltac:(lia))
    as (ev' & Hev' & Hst & Hatt & _).
  exists ev'. split; [exact Hev'|]. split; [exact Hst | exact Hatt].
Defined.

Lemma deliverWebhook_throwing_fails_at_five_witness :
  ∃ ev',
    webhookEvents (db (deliverWebhook_times Demo.offline (Demo.delivery None) 5 Demo.state))
      !! "evt-1" = Some ev'
    ∧ we_status ev' = "failed".
Proof.
  destruct (@deliverWebhook_throwing_fails_at_five Demo.crypto Demo.json Demo.offline
              (Demo.delivery None) Demo.state Demo.event 5
              (λ _ _, ex_intro _ (ErrorObject "fetch failed") eq_refl)
              eq_refl ltac:(lia))
    as (ev' & Hev' & _ & Hst).
  exists ev'. split; [exact Hev' | exact Hst].
Defined.

Lemma deliverWebhook_signs_for_merchant_secret_witness :
  secret (getMerchantWebhookUrl Scenario.merchants "m-1") = Some "whsec_1"
  ∧ is_Some (req_headers (request_of Demo.world (Demo.delivery (Some "whsec_1")) Demo.state)
               !! "X-Loop-Signature").
Proof.
  split; [reflexivity|].
  exact (proj2 (proj1 (@deliverWebhook_signs_for_merchant_secret Demo.crypto Demo.json
           Demo.world Scenario.merchants "m-1" (Demo.delivery (Some "whsec_1")) Demo.state
           eq_refl)) (ex_intro _ "whsec_1" eq_refl)).
Defined.

Lemma createWebhookEvent_creates_pending_witness :
  result_of (createWebhookEvent Scenario.healthy Scenario.merchants
               (Scenario.new_event "m-1" "o-1")) Demo.state = inr "evt-new-0".
Proof.
  exact (proj1 (@createWebhookEvent_creates_pending Demo.json Scenario.healthy
                  Scenario.merchants (Scenario.new_event "m-1" "o-1") Demo.state
                  (Scenario.merchant (Some "https://merchant.example/hook") (Some "whsec_1"))
                  Demo.order eq_refl eq_refl eq_refl)).
Defined.

Lemma createWebhookEvent_then_deliverWebhook_witness :
  attempts (result_of
    (deliverWebhook Scenario.healthy
       {| webhookEventId := "evt-new-0";
          webhookUrl := "https://merchant.example/hook";
          webhookSecret := Some "whsec_1";
          payload := Demo.text "{}" |})
    (state_after (createWebhookEvent Scenario.healthy Scenario.merchants
                    (Scenario.new_event "m-1" "o-1")) Demo.state)) = 1%Z.
Proof.
  exact (proj1 (@createWebhookEvent_then_deliverWebhook Demo.crypto Demo.json
                  Scenario.healthy Scenario.merchants (Scenario.new_event "m-1" "o-1")
                  {| webhookEventId := "evt-new-0";
                     webhookUrl := "https://merchant.example/hook";
                     webhookSecret := Some "whsec_1";
                     payload := Demo.text "{}" |}
                  Demo.state
                  (Scenario.merchant (Some "https://merchant.example/hook") (Some "whsec_1"))
                  Demo.order eq_refl eq_refl eq_refl eq_refl)).
Defined.

End MoreExamples.
